(** * GAME BUS MTY: the event log, the monthly rollup and the calendar export

    A shallow embedding of the computational core of [app.py]:
    - [ensure_eventlog_columns], the event-log normaliser (stable ids,
      default status);
    - [_combine_dt], [events_to_fullcalendar] and [to_ics], the calendar
      projection and the iCalendar export;
    - [get_assumption] and [compute_monthly], the monthly rollup.

    Conventions of the embedding.
    - A pandas table is a list of typed rows.
    - A number cell is a float64, [F64.float]: IEEE 754 binary64 with its
      NaN, infinities and signed zeros, and with the rounding of every
      operation ([SpecFloat], precision 53, maximal exponent 1024).  A
      column that pandas reads as int64 (no blank, no fraction) computes
      the same values while they stay below 2^53 in magnitude.
    - A count (of rows, of cells) is a [nat].
    - An id cell is read by [pd.to_numeric(.., errors="coerce")]: missing,
      text that is not a number, or a number, kept as the exact rational a
      float64 holds.  Ids and the ids the normaliser creates are taken below
      2^53, where float64 holds every integer; the general statements on
      ids say so ([Normalizer.small_integers]).
    - A date cell keeps what the sheet holds: nothing, text, or a date.
      How pandas reads text as a date is not in this program: the two
      readings the program uses, of one cell and of a whole column, are
      parameters of the embedding.
    - Where Python raises, the embedding returns [None] in the option
      monad. *)

From Stdlib Require Import Ascii String QArith Qcanon Qround Lqa SpecFloat.
From stdpp Require Import base numbers list strings pretty sorting.

Close Scope Q_scope.
Close Scope Qc_scope.
Close Scope Z_scope.
Open Scope string_scope.
Open Scope nat_scope.

(** ** Float64 *)

Module F64.

Definition prec : Z := 53.
Definition emax : Z := 1024.

Definition float : Type := spec_float.

Definition zero : float := S754_zero false.
Definition nan : float := S754_nan.

(** [float(z)] of an integer: the nearest float64. *)
Definition of_Z (z : Z) : float := binary_normalize prec emax z 0 false.
Definition of_nat (n : nat) : float := of_Z (Z.of_nat n).

Definition add : float → float → float := SFadd prec emax.
Definition sub : float → float → float := SFsub prec emax.
Definition mul : float → float → float := SFmul prec emax.
Definition div : float → float → float := SFdiv prec emax.

(** [pd.isna] *)
Definition isna (x : float) : bool :=
  match x with S754_nan => true | _ => false end.

(** [.fillna(0)] on one cell *)
Definition fillna0 (x : float) : float := if isna x then zero else x.

(** [x > 0]: false on NaN. *)
Definition gt0 (x : float) : bool := SFltb zero x.

(** [float(x or 0)]: a zero of either sign is falsy and gives 0.0; NaN is
    truthy. *)
Definition or_zero (x : float) : float :=
  match x with S754_zero _ => zero | _ => x end.

(** Truth value of a float. *)
Definition truthy (x : float) : bool :=
  match x with S754_zero _ => false | _ => true end.

(** [np.rint]: the nearest integer, ties to even; the sign of a zero result
    is the sign of the argument. *)
Definition rint (x : float) : float :=
  match x with
  | S754_finite s m e =>
      if (0 <=? e)%Z then x
      else
        let d := (2 ^ (- e))%Z in
        let q := (Z.pos m / d)%Z in
        let r := (Z.pos m `mod` d)%Z in
        let n :=
          match (2 * r ?= d)%Z with
          | Lt => q
          | Gt => (q + 1)%Z
          | Eq => if Z.even q then q else (q + 1)%Z
          end in
        if (n =? 0)%Z then S754_zero s
        else binary_normalize prec emax (if s then (- n)%Z else n) 0 false
  | _ => x
  end.

(** [np.round(x, 2)], which is [Series.round(2)] on one cell: multiply by
    100, round to the nearest integer, divide by 100, each in float64. *)
Definition round2 (x : float) : float :=
  div (rint (mul x (of_Z 100))) (of_Z 100).

End F64.

(** ** Cells *)

(** A cell before coercion: absent (NaN / None / blank), text that the
    pandas parser rejects, or a value the parser accepts. *)
Inductive raw (A : Type) : Type :=
  | Missing
  | Garbage (s : string)
  | Value (a : A).
Arguments Missing {A}.
Arguments Garbage {A} s.
Arguments Value {A} a.

(** [pd.to_numeric(.., errors="coerce")], and [pd.to_datetime] of one cell
    with [errors="coerce"]: whatever does not parse is NaN / NaT. *)
Definition coerce {A} (c : raw A) : option A :=
  match c with
  | Value a => Some a
  | Missing | Garbage _ => None
  end.

Definition isna {A} (x : option A) : bool :=
  match x with None => true | Some _ => false end.

(** ** Calendar values (as [datetime.date], [datetime.time]) *)

Record date := mkDate { year : Z; month : Z; day : Z }.
Record time := mkTime { hour : Z; minute : Z; second : Z }.
Record datetime := mkDatetime { dt_date : date; dt_time : time }.

(** A cell of the "Fecha" column: blank, text, or a date (a cell that Excel
    holds as a date is read as one). *)
Inductive fecha_cell : Type :=
  | FBlank
  | FText (s : string)
  | FStamp (d : date).

(** ** Event rows *)

Record event := mkEvent {
  ev_ID : raw Qc;                    (* "ID" *)
  ev_Fecha : fecha_cell;             (* "Fecha" *)
  ev_Hora : raw time;                (* "Hora" *)
  ev_Hora_fin : raw time;            (* "Hora fin" *)
  ev_Nombre : option string;         (* "Nombre" *)
  ev_Direccion : option string;      (* "Dirección" *)
  ev_Telefono : option string;       (* "Teléfono" *)
  ev_Colonia_Zona : option string;   (* "Colonia/Zona" *)
  ev_Paquete : option string;        (* "Paquete" *)
  ev_Precio : F64.float;             (* "Precio (MXN)" *)
  ev_Addon_Pizza : option string;    (* "Add-on Pizza (Sí/No)" *)
  ev_Margen_Pizza : F64.float;       (* "Margen Pizza (MXN)" *)
  ev_Retro_exterior : option string; (* "Retro exterior (Sí/No)" *)
  ev_Costo_variable : F64.float;     (* "Costo variable (MXN)" *)
  ev_Notas : option string;          (* "Notas" *)
  ev_Estatus : option string         (* "Estatus" *)
}.

(** The Event_Log sheet: its column index and its rows. *)
Record table := mkTable { columns : list string; rows : list event }.

(** ** The event-log normaliser *)

Module Normalizer.

Definition need_cols : list string :=
  [ "ID"; "Fecha"; "Hora"; "Hora fin"; "Nombre"; "Dirección"; "Teléfono";
    "Colonia/Zona"; "Paquete"; "Precio (MXN)"; "Add-on Pizza (Sí/No)";
    "Margen Pizza (MXN)"; "Retro exterior (Sí/No)"; "Costo variable (MXN)";
    "Notas"; "Estatus" ].

(** [df[c] = np.nan] seen from one row: the cell of column [c] is blanked. *)
Definition set_nan (c : string) (e : event) : event :=
  let keep {A} (name : string) (old blank : A) : A :=
    if bool_decide (c = name) then blank else old in
  {| ev_ID := keep "ID" (ev_ID e) Missing;
     ev_Fecha := keep "Fecha" (ev_Fecha e) FBlank;
     ev_Hora := keep "Hora" (ev_Hora e) Missing;
     ev_Hora_fin := keep "Hora fin" (ev_Hora_fin e) Missing;
     ev_Nombre := keep "Nombre" (ev_Nombre e) None;
     ev_Direccion := keep "Dirección" (ev_Direccion e) None;
     ev_Telefono := keep "Teléfono" (ev_Telefono e) None;
     ev_Colonia_Zona := keep "Colonia/Zona" (ev_Colonia_Zona e) None;
     ev_Paquete := keep "Paquete" (ev_Paquete e) None;
     ev_Precio := keep "Precio (MXN)" (ev_Precio e) F64.nan;
     ev_Addon_Pizza := keep "Add-on Pizza (Sí/No)" (ev_Addon_Pizza e) None;
     ev_Margen_Pizza :=
       keep "Margen Pizza (MXN)" (ev_Margen_Pizza e) F64.nan;
     ev_Retro_exterior :=
       keep "Retro exterior (Sí/No)" (ev_Retro_exterior e) None;
     ev_Costo_variable :=
       keep "Costo variable (MXN)" (ev_Costo_variable e) F64.nan;
     ev_Notas := keep "Notas" (ev_Notas e) None;
     ev_Estatus := keep "Estatus" (ev_Estatus e) None |}.

(** One turn of [for c in need_cols: if c not in df.columns: df[c] = np.nan]. *)
Definition add_column (df : table) (c : string) : table :=
  if bool_decide (c ∈ columns df) then df
  else {| columns := columns df ++ [c]; rows := set_nan c <$> rows df |}.

(** [df["ID"].isna().all()] *)
Definition isna_all (s : list (option Qc)) : bool := forallb isna s.

(** [max] of two numbers. *)
Definition Qc_max (a b : Qc) : Qc := if bool_decide (a ≤ b)%Qc then b else a.

(** [df["ID"].max()]: NaN cells are skipped; NaN when there is no number. *)
Fixpoint series_max (s : list (option Qc)) : option Qc :=
  match s with
  | [] => None
  | None :: s' => series_max s'
  | Some v :: s' =>
      match series_max s' with
      | None => Some v
      | Some m => Some (Qc_max v m)
      end
  end.

(** [int(x)] of a float, and [astype(int)] on one cell: the fraction is cut
    off, towards zero. *)
Definition trunc (q : Qc) : Z :=
  if bool_decide (0 ≤ q)%Qc then Qfloor q else Qceiling q.

(** An integer written into the float column. *)
Definition Qc_of_Z (z : Z) : Qc := Q2Qc (inject_Z z).

(** [nan_mask.sum()] *)
Definition count_nan (s : list (option Qc)) : nat :=
  length (filter (λ x, x = None) s).

(** [df.loc[nan_mask, "ID"] = new_ids]: the NaN cells take the new ids in
    row order. *)
Fixpoint fill_nan (s : list (option Qc)) (new_ids : list Z)
  : list (option Qc) :=
  match s with
  | [] => []
  | Some v :: s' => Some v :: fill_nan s' new_ids
  | None :: s' =>
      match new_ids with
      | n :: rest => Some (Qc_of_Z n) :: fill_nan s' rest
      | [] => None :: fill_nan s' []
      end
  end.

(** [df["ID"].duplicated(keep="first")]: a cell is flagged when its value
    occurred in an earlier row. *)
Fixpoint duplicated_from (seen s : list (option Qc)) : list bool :=
  match s with
  | [] => []
  | x :: s' => bool_decide (x ∈ seen) :: duplicated_from (x :: seen) s'
  end.

Definition duplicated (s : list (option Qc)) : list bool :=
  duplicated_from [] s.

(** [np.where(mask)[0]]: the positions flagged, in increasing order. *)
Fixpoint where_from (i : nat) (mask : list bool) : list nat :=
  match mask with
  | [] => []
  | true :: mask' => i :: where_from (S i) mask'
  | false :: mask' => where_from (S i) mask'
  end.

Definition np_where (mask : list bool) : list nat := where_from 0 mask.

(** The loop
    [for idx in np.where(dups)[0]: max_id += 1; df.iat[idx, ID] = max_id],
    on the pair of the column and [max_id]. *)
Definition reassign (st : list (option Qc) * Z) (idx : nat)
  : list (option Qc) * Z :=
  let '(s, max_id) := st in
  let max_id := (max_id + 1)%Z in
  (<[idx := Some (Qc_of_Z max_id)]> s, max_id).

(** [df["ID"].astype(int)]: raises on a NaN cell, and cuts the fraction of
    every other cell. *)
Fixpoint astype_int (s : list (option Qc)) : option (list Z) :=
  match s with
  | [] => Some []
  | None :: _ => None
  | Some v :: s' => cons (trunc v) <$> astype_int s'
  end.

(** The id column of [ensure_eventlog_columns], from the coerced column to
    the integer column.  The duplicates are looked for among the numbers as
    they are, before [astype(int)] cuts their fractions. *)
Definition stable_ids (s : list (option Qc)) : option (list Z) :=
  if isna_all s then
    Some (seqZ 1 (Z.of_nat (length s)))
  else
    m ← series_max s;                 (* int(NaN) would raise *)
    let max_id := trunc m in          (* int(df["ID"].max() or 0) *)
    let k := Z.of_nat (count_nan s) in
    let s1 := if bool_decide (0 < k)%Z
              then fill_nan s (seqZ (max_id + 1) k) else s in
    let max_id := if bool_decide (0 < k)%Z then (max_id + k)%Z else max_id in
    let dups := duplicated s1 in
    let s2 := fst (foldl reassign (s1, max_id) (np_where dups)) in
    astype_int s2.

(** [.fillna("Pendiente").replace({"": "Pendiente"})] on one cell. *)
Definition fill_status (s : option string) : option string :=
  match s with
  | None => Some "Pendiente"
  | Some st => if bool_decide (st = "") then Some "Pendiente" else Some st
  end.

Definition set_ID (e : event) (v : Z) : event :=
  {| ev_ID := Value (Qc_of_Z v); ev_Fecha := ev_Fecha e; ev_Hora := ev_Hora e;
     ev_Hora_fin := ev_Hora_fin e; ev_Nombre := ev_Nombre e;
     ev_Direccion := ev_Direccion e; ev_Telefono := ev_Telefono e;
     ev_Colonia_Zona := ev_Colonia_Zona e; ev_Paquete := ev_Paquete e;
     ev_Precio := ev_Precio e; ev_Addon_Pizza := ev_Addon_Pizza e;
     ev_Margen_Pizza := ev_Margen_Pizza e;
     ev_Retro_exterior := ev_Retro_exterior e;
     ev_Costo_variable := ev_Costo_variable e; ev_Notas := ev_Notas e;
     ev_Estatus := ev_Estatus e |}.

Definition set_Estatus (e : event) (v : option string) : event :=
  {| ev_ID := ev_ID e; ev_Fecha := ev_Fecha e; ev_Hora := ev_Hora e;
     ev_Hora_fin := ev_Hora_fin e; ev_Nombre := ev_Nombre e;
     ev_Direccion := ev_Direccion e; ev_Telefono := ev_Telefono e;
     ev_Colonia_Zona := ev_Colonia_Zona e; ev_Paquete := ev_Paquete e;
     ev_Precio := ev_Precio e; ev_Addon_Pizza := ev_Addon_Pizza e;
     ev_Margen_Pizza := ev_Margen_Pizza e;
     ev_Retro_exterior := ev_Retro_exterior e;
     ev_Costo_variable := ev_Costo_variable e; ev_Notas := ev_Notas e;
     ev_Estatus := v |}.

(** The coerced id column, [pd.to_numeric(df["ID"], errors="coerce")]. *)
Definition id_column (df : table) : list (option Qc) :=
  (λ e, coerce (ev_ID e)) <$> rows df.

Definition status_column (df : table) : list (option string) :=
  ev_Estatus <$> rows df.

(** What the normaliser does to one row, given its id. *)
Definition norm_row (e : event) (v : Z) : event :=
  set_Estatus (set_ID e v) (fill_status (ev_Estatus (set_ID e v))).

Definition ensure_eventlog_columns (df : table) : option table :=
  let df := foldl add_column df need_cols in
  ids ← stable_ids (id_column df);
  let rs := zip_with set_ID (rows df) ids in
  Some {| columns := columns df;
          rows := (λ e, set_Estatus e (fill_status (ev_Estatus e))) <$> rs |}.

(** The id columns on which the embedding is exact: every number is an
    integer, small enough for float64 to hold it and the ids the
    normaliser creates after it (at most one per row) without rounding. *)
Definition small_integers (s : list (option Qc)) : Prop :=
  ∀ q, Some q ∈ s →
       ∃ z, q = Qc_of_Z z ∧ (Z.abs z + Z.of_nat (length s) < 2 ^ 53)%Z.

End Normalizer.

(** ** Text helpers: Python [str] methods on UTF-8 text

    A Python string is held as its UTF-8 bytes.  [str.lower] acts here on
    the letters of ASCII and Latin-1 (A to Z, À to Þ); the letters of other
    scripts are left as they are, which changes no comparison the program
    makes: every text it compares with ("efectuado", "pendiente", "sí",
    "retro", "clásico", ...) is made of ASCII and Latin-1 letters, and no
    letter outside them has one of these as its lower case.  [str.strip]
    removes the white space of Unicode. *)

Definition lower_ascii (c : ascii) : ascii :=
  let n := Ascii.N_of_ascii c in
  if ((65 <=? n) && (n <=? 90))%N then Ascii.ascii_of_N (n + 32) else c.

(** The second byte of a two-byte letter À (C3 80) to Þ (C3 9E), × (C3 97)
    left out, moves by 32 to à to þ. *)
Definition lower_latin1 (c : ascii) : ascii :=
  let n := Ascii.N_of_ascii c in
  if ((128 <=? n) && (n <=? 158) && negb (n =? 151))%N
  then Ascii.ascii_of_N (n + 32) else c.

Fixpoint str_lower (s : string) : string :=
  match s with
  | EmptyString => EmptyString
  | String c s' =>
      if (Ascii.N_of_ascii c =? 195)%N then
        match s' with
        | String d s'' => String c (String (lower_latin1 d) (str_lower s''))
        | EmptyString => String c EmptyString
        end
      else String (lower_ascii c) (str_lower s')
  end.

(** The bytes that follow the first byte [c] of a white-space character:
    U+0009 to U+000D, U+001C to U+0020, U+0085, U+00A0, U+1680, U+2000 to
    U+200A, U+2028, U+2029, U+202F, U+205F, U+3000. *)
Definition space_tails (c : ascii) : list (list N) :=
  let n := Ascii.N_of_ascii c in
  if (((9 <=? n) && (n <=? 13)) || ((28 <=? n) && (n <=? 32)))%N then [[]]
  else if (n =? 194)%N then [[133]; [160]]%N
  else if (n =? 225)%N then [[154; 128]]%N
  else if (n =? 226)%N then
    ((λ k, [128; k]%N) <$>
       [128; 129; 130; 131; 132; 133; 134; 135; 136; 137; 138; 168; 169;
        175]%N) ++ [[129; 159]%N]
  else if (n =? 227)%N then [[128; 128]]%N
  else [].

Fixpoint drop_bytes (bs : list N) (s : string) : option string :=
  match bs, s with
  | [], _ => Some s
  | b :: bs', String c s' =>
      if (Ascii.N_of_ascii c =? b)%N then drop_bytes bs' s' else None
  | _ :: _, EmptyString => None
  end.

(** The text after its first character, when that is white space. *)
Definition drop_space (s : string) : option string :=
  match s with
  | EmptyString => None
  | String c s' =>
      head (omap (λ bs, drop_bytes bs s') (space_tails c))
  end.

Fixpoint lstrip_fuel (fuel : nat) (s : string) : string :=
  match fuel with
  | 0 => s
  | S fuel' =>
      match drop_space s with
      | Some s' => lstrip_fuel fuel' s'
      | None => s
      end
  end.

Definition str_lstrip (s : string) : string := lstrip_fuel (String.length s) s.

(** The same from the right, on the text reversed: its last character is
    one, two or three bytes long. *)
Definition drop_space_rev (rs : string) : option string :=
  head (omap (λ k,
          match drop_space (String.rev (substring 0 k rs)) with
          | Some EmptyString =>
              Some (substring k (String.length rs - k) rs)
          | _ => None
          end) [1; 2; 3]).

Fixpoint rstrip_fuel (fuel : nat) (rs : string) : string :=
  match fuel with
  | 0 => rs
  | S fuel' =>
      match drop_space_rev rs with
      | Some rs' => rstrip_fuel fuel' rs'
      | None => rs
      end
  end.

Definition str_rstrip (s : string) : string :=
  String.rev (rstrip_fuel (String.length s) (String.rev s)).

Definition str_strip (s : string) : string := str_rstrip (str_lstrip s).

(** [needle in hay] *)
Fixpoint str_contains (needle hay : string) : bool :=
  String.prefix needle hay ||
  match hay with
  | EmptyString => false
  | String _ hay' => str_contains needle hay'
  end.

(** [str(cell)] of a text cell: NaN prints as "nan". *)
Definition str_cell (c : option string) : string := default "nan" c.

(** Truth value of a text cell: NaN is a non-zero float, hence true; text is
    true when it is not empty. *)
Definition truthy (c : option string) : bool :=
  match c with
  | None => true
  | Some s => negb (bool_decide (s = ""))
  end.

(** [a or b] *)
Definition py_or (a b : option string) : option string :=
  if truthy a then a else b.

(** Decimal digits, zero padded ([%02d], [%04d]). *)
Definition digit (n : Z) : ascii := Ascii.ascii_of_N (48 + Z.to_N n).

Definition pad2 (n : Z) : string :=
  String (digit ((n / 10) `mod` 10)) (String (digit (n `mod` 10)) EmptyString).

Definition pad4 (n : Z) : string :=
  String (digit ((n / 1000) `mod` 10)) (String (digit ((n / 100) `mod` 10))
    (pad2 n)).

(** ** The calendar projection and the iCalendar export *)

Module Calendar.

(** *** Dates and instants *)

Definition is_leap (y : Z) : bool :=
  (((y `mod` 4) =? 0) && (negb ((y `mod` 100) =? 0) || ((y `mod` 400) =? 0)))%Z.

Definition days_in_month (y m : Z) : Z :=
  if (m =? 2)%Z then (if is_leap y then 29 else 28)%Z
  else if ((m =? 4) || (m =? 6) || (m =? 9) || (m =? 11))%Z then 30%Z
  else 31%Z.

Definition valid_date (d : date) : Prop :=
  (1 ≤ year d ≤ 9999 ∧ 1 ≤ month d ≤ 12 ∧
   1 ≤ day d ≤ days_in_month (year d) (month d))%Z.

Definition valid_time (t : time) : Prop :=
  (0 ≤ hour t < 24 ∧ 0 ≤ minute t < 60 ∧ 0 ≤ second t < 60)%Z.

Definition valid_datetime (dt : datetime) : Prop :=
  valid_date (dt_date dt) ∧ valid_time (dt_time dt).

(** The day after [d]. *)
Definition next_day (d : date) : date :=
  if (day d <? days_in_month (year d) (month d))%Z then
    mkDate (year d) (month d) (day d + 1)
  else if (month d <? 12)%Z then mkDate (year d) (month d + 1) 1
  else mkDate (year d + 1) 1 1.

Definition seconds_of_day (t : time) : Z :=
  (hour t * 3600 + minute t * 60 + second t)%Z.

Definition time_of_seconds (s : Z) : time :=
  mkTime (s / 3600) ((s `mod` 3600) / 60) (s `mod` 60).

(** [date.max], 9999-12-31: [datetime] holds no later day. *)
Definition is_last_day (d : date) : bool :=
  ((year d =? 9999) && (month d =? 12) && (day d =? 31))%Z.

(** [dt + timedelta(seconds=secs)] for a delay of at most one day, which is
    all the program adds (two hours): the clock advances and the date moves
    to the next day when the clock passes midnight.  Past the last day of
    year 9999 Python raises [OverflowError]. *)
Definition datetime_add (dt : datetime) (secs : Z) : option datetime :=
  let s := (seconds_of_day (dt_time dt) + secs)%Z in
  if (s <? 86400)%Z then Some (mkDatetime (dt_date dt) (time_of_seconds s))
  else if is_last_day (dt_date dt) then None
  else Some (mkDatetime (next_day (dt_date dt)) (time_of_seconds (s - 86400))).

(** [timedelta(hours=2)], in seconds. *)
Definition two_hours : Z := 7200.





(** Comparison of instants, field by field as [datetime] compares. *)
Fixpoint lex (cs : list comparison) : comparison :=
  match cs with
  | [] => Eq
  | Eq :: cs' => lex cs'
  | c :: _ => c
  end.

Definition datetime_compare (a b : datetime) : comparison :=
  lex [ (year (dt_date a) ?= year (dt_date b))%Z;
        (month (dt_date a) ?= month (dt_date b))%Z;
        (day (dt_date a) ?= day (dt_date b))%Z;
        (hour (dt_time a) ?= hour (dt_time b))%Z;
        (minute (dt_time a) ?= minute (dt_time b))%Z;
        (second (dt_time a) ?= second (dt_time b))%Z ].

(** [a <= b] *)
Definition datetime_le (a b : datetime) : bool :=
  match datetime_compare a b with Gt => false | _ => true end.

(** *** Formats *)

(** The text of ["%H:%M"], kept as the pair of numbers it spells. *)
Definition hhmm : Type := Z * Z.

(** [t.strftime("%H:%M")]: the seconds are dropped. *)
Definition strftime_HM (t : time) : hhmm := (hour t, minute t).

(** [datetime.strptime(h_str, "%H:%M").time()] *)
Definition strptime_HM (h_str : hhmm) : time := mkTime h_str.1 h_str.2 0.

(** [dt.strftime('%Y%m%dT%H%M%S')] (years of four digits). *)
Definition strftime_basic (dt : datetime) : string :=
  pad4 (year (dt_date dt)) +:+ pad2 (month (dt_date dt)) +:+
  pad2 (day (dt_date dt)) +:+ "T" +:+ pad2 (hour (dt_time dt)) +:+
  pad2 (minute (dt_time dt)) +:+ pad2 (second (dt_time dt)).

(** [dt.strftime("%Y-%m-%dT%H:%M:%S")] *)
Definition strftime_iso (dt : datetime) : string :=
  pad4 (year (dt_date dt)) +:+ "-" +:+ pad2 (month (dt_date dt)) +:+ "-" +:+
  pad2 (day (dt_date dt)) +:+ "T" +:+ pad2 (hour (dt_time dt)) +:+ ":" +:+
  pad2 (minute (dt_time dt)) +:+ ":" +:+ pad2 (second (dt_time dt)).

(** [format(x, ",.0f")]: the nearest integer (ties to even), its digits in
    groups of three. *)
Fixpoint group3 (digits : string) : string :=
  match digits with
  | EmptyString => EmptyString
  | String c rest =>
      let n := String.length rest in
      String c (if (0 <? n) && ((n `mod` 3) =? 0)
                then String "," (group3 rest) else group3 rest)
  end.

(** The integer a finite float rounds to, without its sign. *)
Definition rint_abs (x : F64.float) : Z :=
  match F64.rint x with
  | S754_finite _ m e => (Z.pos m * 2 ^ e)%Z
  | _ => 0%Z
  end.

Definition format_money (x : F64.float) : string :=
  match x with
  | S754_nan => "nan"
  | S754_infinity s => if s then "-inf" else "inf"
  | S754_zero s => if s then "-0" else "0"
  | S754_finite s _ _ =>
      (if s then "-" else "") +:+ group3 (pretty (rint_abs x))
  end.

(** *** Reading a date *)

Section Parsers.

(** What pandas makes of a text as a date ([pd.to_datetime(s,
    errors="coerce")], NaT being [None]), and of the whole "Fecha" column
    ([pd.to_datetime(df["Fecha"], errors="coerce")]), cell by cell in row
    order.  The two need not agree on a text: pandas reads a column in the
    format of its first texts. *)
Variable to_datetime_text : string → option date.
Variable to_datetime_column : list fecha_cell → list (option date).

(** [pd.to_datetime(cell, errors="coerce")] *)
Definition to_datetime (c : fecha_cell) : option date :=
  match c with
  | FBlank => None
  | FText s => to_datetime_text s
  | FStamp d => Some d
  end.

(** *** [_combine_dt]

    [f] is the date [pd.to_datetime(fecha_val, errors="coerce")] of the
    first argument. *)
Definition _combine_dt (f : option date) (hora_val : raw time)
    (fallback : hhmm) : option datetime :=
  match f with
  | None => None
  | Some f =>
      let h_str :=
        match coerce hora_val with
        | Some h_dt => strftime_HM h_dt
        | None => fallback
        end in
      Some (mkDatetime f (strptime_HM h_str))
  end.

(** The end instant shared by the two exports: it falls back to two hours
    after the start, which can raise. *)
Definition end_or_default (dtstart : datetime) (dtend : option datetime)
  : option datetime :=
  match dtend with
  | None => datetime_add dtstart two_hours
  | Some e =>
      if datetime_le e dtstart then datetime_add dtstart two_hours
      else Some e
  end.

(** *** [events_to_fullcalendar] *)

Record fc_event := mkFc {
  fc_title : string;
  fc_start : option string;
  fc_end : option string;
  fc_color : string;
  fc_paquete : option string;
  fc_direccion : option string;
  fc_telefono : option string;
  fc_notas : option string
}.

(** [build_iso], on a row and its cell [d] of the parsed "Fecha" column;
    [None] when it raises. *)
Definition build_iso (d : option date) (row : event)
  : option (option string * option string) :=
  match d with
  | None => Some (None, None)
  | Some d =>
      match _combine_dt (Some d) (ev_Hora row) (10, 0)%Z with
      | None => Some (None, None)
      | Some start_dt =>
          let end_dt :=
            _combine_dt (Some d) (ev_Hora_fin row)
              (strftime_HM (dt_time start_dt)) in
          end_dt ← end_or_default start_dt end_dt;
          Some (Some (strftime_iso start_dt), Some (strftime_iso end_dt))
      end
  end.

Definition color_for (paquete estatus : option string) : string :=
  let p := str_lower (str_strip (str_cell (py_or paquete (Some "")))) in
  if bool_decide (str_lower (str_cell estatus) = "pendiente") then "#3b82f6"
  else if str_contains "retro" p && str_contains "clásico" p then "#7c3aed"
  else if str_contains "retro" p then "#ef4444"
  else if str_contains "clásico" p then "#10b981"
  else "#6b7280".

(** Truth value of [start], which is [None] or a string. *)
Definition str_truthy (s : option string) : bool :=
  match s with
  | None => false
  | Some s => negb (bool_decide (s = ""))
  end.

(** The body of the loop over the rows: [Some None] is [continue], [None]
    is an exception. *)
Definition fc_entry (d : option date) (r : event) : option (option fc_event) :=
  '(start, end_) ← build_iso d r;
  if negb (str_truthy start) then Some None
  else
    let title :=
      py_or (ev_Nombre r) (py_or (ev_Colonia_Zona r) (Some "Evento")) in
    Some (Some
      {| fc_title :=
           str_cell title +:+ " (" +:+ str_cell (ev_Estatus r) +:+ ")";
         fc_start := start;
         fc_end := end_;
         fc_color := color_for (ev_Paquete r) (ev_Estatus r);
         fc_paquete := ev_Paquete r;
         fc_direccion := ev_Direccion r;
         fc_telefono := ev_Telefono r;
         fc_notas := ev_Notas r |}).

(** The rows with their cells of the "Fecha" column parsed at once (line
    442). *)
Definition with_parsed_column (ev_df : list event)
  : list (event * option date) :=
  zip ev_df (to_datetime_column (ev_Fecha <$> ev_df)).

Definition events_to_fullcalendar (ev_df : list event)
  : option (list fc_event) :=
  if bool_decide (ev_df = []) then Some []
  else
    entries ← mapM (λ rd, fc_entry rd.2 rd.1) (with_parsed_column ev_df);
    Some (omap id entries).

(** *** [to_ics] *)

Definition dtstart_of (r : event) : option datetime :=
  _combine_dt (to_datetime (ev_Fecha r)) (ev_Hora r) (10, 0)%Z.

Definition dtend_of (r : event) (dtstart : datetime) : option datetime :=
  end_or_default dtstart
    (_combine_dt (to_datetime (ev_Fecha r)) (ev_Hora_fin r)
                 (strftime_HM (dt_time dtstart))).

(** The date of a row, read on its own, and its start time, are calendar
    values (what the pandas parser yields). *)
Definition valid_cells (r : event) : Prop :=
  (∀ d, to_datetime (ev_Fecha r) = Some d → valid_date d) ∧
  (∀ t, coerce (ev_Hora r) = Some t → valid_time t).

(** An event is dated, for [to_ics], when its date cell parses. *)
Definition dated (r : event) : Prop := is_Some (to_datetime (ev_Fecha r)).

(** [t] with its seconds dropped. *)
Definition to_minute (t : time) : time := mkTime (hour t) (minute t) 0.

(** The instants of a row dated [d], in the words of the specification: it
    starts on [d] at its start time cut to the minute, at 10:00 without
    one; [stop] is its end instant when it is [d] at the end time cut to
    the minute, should that be strictly after the start, and else the
    start plus two hours. *)
Definition start_instant (d : date) (r : event) : datetime :=
  mkDatetime d (from_option to_minute (mkTime 10 0 0) (coerce (ev_Hora r))).

Definition is_end_instant (d : date) (r : event) (stop : datetime) : Prop :=
  let start := start_instant d r in
  match coerce (ev_Hora_fin r) with
  | Some t =>
      if datetime_le (mkDatetime d (to_minute t)) start
      then datetime_add start two_hours = Some stop
      else stop = mkDatetime d (to_minute t)
  | None => datetime_add start two_hours = Some stop
  end.

Definition uid_of (dtstart : datetime) : string :=
  strftime_basic dtstart +:+ "-gamebus@agenda".

(** The description: the non-blank cells among zone, package, notes, phone
    and address, each under its column name. *)
Definition desc_parts (r : event) : list string :=
  omap (λ '(key, val),
          match val with
          | Some s =>
              if bool_decide (str_strip s = "") then None
              else Some (key +:+ ": " +:+ s)
          | None => None
          end)
       [ ("Colonia/Zona", ev_Colonia_Zona r); ("Paquete", ev_Paquete r);
         ("Notas", ev_Notas r); ("Teléfono", ev_Telefono r);
         ("Dirección", ev_Direccion r) ].

(** The lines of one VEVENT block; [Some None] is [continue], [None] an
    exception.  [utcnow] is the clock reading of [datetime.utcnow()]. *)
Definition vevent (utcnow : datetime) (r : event)
  : option (option (list string)) :=
  match dtstart_of r with
  | None => Some None
  | Some dtstart =>
      dtend ← dtend_of r dtstart;
      let uid := uid_of dtstart in
      let title :=
        "Evento: " +:+ str_cell (ev_Nombre r) +:+ " - $" +:+
        format_money (ev_Precio r) in
      let loc := str_cell (ev_Direccion r) in
      let desc := String.concat " | " (desc_parts r) in
      Some (Some
           [ "BEGIN:VEVENT";
             "UID:" +:+ uid;
             "DTSTAMP:" +:+ strftime_basic utcnow +:+ "Z";
             "DTSTART:" +:+ strftime_basic dtstart;
             "DTEND:" +:+ strftime_basic dtend;
             "SUMMARY:" +:+ title;
             "LOCATION:" +:+ loc;
             "DESCRIPTION:" +:+ desc;
             "END:VEVENT" ])
  end.

Definition ics_blocks (utcnow : datetime) (df_events : list event)
  : option (list (list string)) :=
  blocks ← mapM (vevent utcnow) df_events;
  Some (omap id blocks).

Definition ics_lines (utcnow : datetime) (df_events : list event)
  : option (list string) :=
  blocks ← ics_blocks utcnow df_events;
  Some ([ "BEGIN:VCALENDAR"; "VERSION:2.0";
          "PRODID:-//GAME BUS MTY//Agenda//ES" ]
        ++ concat blocks ++ [ "END:VCALENDAR" ])%list.

Definition CRLF : string := String "013"%char (String "010"%char EmptyString).

Definition to_ics (utcnow : datetime) (df_events : list event)
  : option string :=
  String.concat CRLF <$> ics_lines utcnow df_events.

End Parsers.

End Calendar.

(** ** The monthly rollup *)

Module Rollup.

Definition SPANISH_MONTHS : list string :=
  [ "Ene"; "Feb"; "Mar"; "Abr"; "May"; "Jun";
    "Jul"; "Ago"; "Sep"; "Oct"; "Nov"; "Dic" ].

(** [MONTH_NAME_MAP = {i+1: m for i, m in enumerate(SPANISH_MONTHS)}], with
    the lookup of [Series.map]: a key that is not there gives NaN. *)
Definition MONTH_NAME_MAP (n : Z) : option string :=
  if (1 <=? n)%Z then SPANISH_MONTHS !! Z.to_nat (n - 1) else None.

Definition APPLY_FIXED_FROM_MONTH : Z := 10.

(** [SPANISH_MONTHS.index(mes_str) + 1], and 0 on [ValueError]. *)
Definition month_to_num (mes_str : string) : Z :=
  match list_find (λ m, m = mes_str) SPANISH_MONTHS with
  | Some (i, _) => Z.of_nat i + 1
  | None => 0
  end.

(** *** The sheets *)

Record assumption := mkAssumption {
  a_Variable : option string;   (* "Variable" *)
  a_Valor : raw F64.float       (* "Valor": blank, text [float()] rejects,
                                   or a number *)
}.

Record funnel_row := mkFunnel {
  f_Mes : option string;        (* "Mes" *)
  f_Reservas : F64.float        (* "Reservas confirmadas" *)
}.

Record monthly_sheet_row := mkMonthlySheet {
  ms_Mes : option string;       (* "Mes" *)
  ms_Resenas : F64.float        (* "Reseñas nuevas (#)" *)
}.

(** The sheets [compute_monthly] reads.  A sheet that lacks the columns the
    code asks for is [None] (the Monthly sheet is asked for its review
    column, and is taken to have its "Mes" column with it).  The event log is the log of the session,
    which has the sixteen columns.  [Estatus_object] is the dtype of its
    "Estatus" column, when no cell of the column holds text, being
    [object]: a column the normaliser created as NaN on a log without rows
    is [float64]. *)
Record Dfs := mkDfs {
  Assumptions : option (list assumption);
  Event_Log : list event;
  Estatus_object : bool;
  Funnel : option (list funnel_row);
  Monthly : option (list monthly_sheet_row)
}.

(** [float(match.iloc[0])] when a row carries the name, and the default
    when none does or [float] raises. *)
Definition get_assumption (dfs : Dfs) (var_name : string)
    (default : F64.float) : F64.float :=
  match Assumptions dfs with
  | Some df =>
      match filter (λ a, a_Variable a = Some var_name) df with
      | a :: _ =>
          match a_Valor a with
          | Value q => q             (* float(match.iloc[0]) *)
          | Missing => F64.nan       (* float(nan) *)
          | Garbage _ => default     (* except: return default *)
          end
      | [] => default
      end
  | None => default
  end.

(** *** Columns derived per event *)

(** The [.str] accessor of the "Estatus" column: pandas raises
    [AttributeError] unless the column is of dtype [object], which it is
    as soon as a cell holds text. *)
Definition str_accessor_ok (dfs : Dfs) : bool :=
  Estatus_object dfs ||
  bool_decide (Exists (λ e, is_Some (ev_Estatus e)) (Event_Log dfs)).

(** [ev_all["Estatus"].str.lower() == "efectuado"] *)
Definition is_efectuado (e : event) : bool :=
  match ev_Estatus e with
  | Some s => bool_decide (str_lower s = "efectuado")
  | None => false
  end.

(** [.dt.month.map(MONTH_NAME_MAP)] on one cell of the parsed column. *)
Definition Mes_of (d : option date) : option string :=
  d ← d; MONTH_NAME_MAP (month d).

(** [.fillna(False).astype(str).str.strip().str.lower().isin([...])] *)
Definition yes_no (c : option string) : bool :=
  bool_decide (str_lower (str_strip (default "False" c))
               ∈ [ "si"; "sí"; "true"; "1"; "x"; "yes" ]).

(** *** Aggregates *)

(** One step of the compensated (Kahan) summation that the group
    aggregations of pandas run over the cells of a group that are not
    NaN.  A compensation that comes out NaN is reset. *)
Definition kahan_step (st : F64.float * F64.float) (val : F64.float)
  : F64.float * F64.float :=
  let '(sumx, compensation) := st in
  let y := F64.sub val compensation in
  let t := F64.add sumx y in
  let c := F64.sub (F64.sub t sumx) y in
  (t, if F64.isna c then F64.zero else c).

Definition notna (xs : list F64.float) : list F64.float :=
  filter (λ x, F64.isna x = false) xs.

(** ["sum"]: 0.0 on a group without a number. *)
Definition group_sum (xs : list F64.float) : F64.float :=
  (foldl kahan_step (F64.zero, F64.zero) (notna xs)).1.

(** ["count"] *)
Definition count_notna (xs : list F64.float) : nat := length (notna xs).

(** ["mean"]: NaN on a group without a number. *)
Definition group_mean (xs : list F64.float) : F64.float :=
  if bool_decide (count_notna xs = 0) then F64.nan
  else F64.div (group_sum xs) (F64.of_nat (count_notna xs)).

Definition count_true (bs : list bool) : nat :=
  length (filter (λ b, b = true) bs).

Definition float_of_bool (b : bool) : F64.float :=
  if b then F64.of_Z 1 else F64.zero.

(** The seven aggregated columns of one month; a count that the left merge
    leaves NaN is [None]. *)
Record stats := mkStats {
  s_Eventos : option nat;           (* "Eventos" *)
  s_Precio_promedio : F64.float;    (* "Precio promedio (MXN)" *)
  s_Ingresos : F64.float;           (* "Ingresos (MXN)" *)
  s_Costo_variable : F64.float;     (* "Costo variable (MXN)" *)
  s_Addons_Pizza : option nat;      (* "Add-ons Pizza (#)" *)
  s_Margen_Pizza : F64.float;       (* "Margen Pizza (MXN)" *)
  s_Adopcion_Retro : F64.float      (* "Adopción Retro (%)" *)
}.

(** [grp.agg({...})] on one group: count, mean and sum of the price, sum of
    the variable cost, number of pizza add-ons, sum of the pizza margin,
    mean of the retro flag. *)
Definition aggregate (g : list event) : stats :=
  {| s_Eventos := Some (count_notna (ev_Precio <$> g));
     s_Precio_promedio := group_mean (ev_Precio <$> g);
     s_Ingresos := group_sum (ev_Precio <$> g);
     s_Costo_variable := group_sum (ev_Costo_variable <$> g);
     s_Addons_Pizza :=
       Some (count_true ((λ e, yes_no (ev_Addon_Pizza e)) <$> g));
     s_Margen_Pizza := group_sum (ev_Margen_Pizza <$> g);
     s_Adopcion_Retro :=
       group_mean ((λ e, float_of_bool (yes_no (ev_Retro_exterior e)))
                     <$> g) |}.

(** The completed events under their month key, the "Mes" column. *)
Definition keyed : Type := option string * event.

(** The rows of key [k]. *)
Definition group (ev : list keyed) (k : option string) : list event :=
  snd <$> filter (λ ke : keyed, ke.1 = k) ev.

(** [ev.groupby("Mes", dropna=False).agg(...).reset_index()]: one row per
    month key that occurs (NaN included).  The rows are only ever looked up
    by key, so their order is immaterial; they are listed here in order of
    first occurrence. *)
Definition groupby_agg (ev : list keyed) : list (option string * stats) :=
  (λ k, (k, aggregate (group ev k))) <$> remove_dups (fst <$> ev).

(** [miss[i]]: the number of events of month [m] whose variable cost is
    NaN, as the float the reindexed sums hold. *)
Definition miss (ev : list keyed) (m : string) : F64.float :=
  F64.of_nat
    (length (filter (λ e, F64.isna (ev_Costo_variable e) = true)
                    (group ev (Some m)))).

Definition set_Costo_variable (s : stats) (v : F64.float) : stats :=
  {| s_Eventos := s_Eventos s; s_Precio_promedio := s_Precio_promedio s;
     s_Ingresos := s_Ingresos s; s_Costo_variable := v;
     s_Addons_Pizza := s_Addons_Pizza s; s_Margen_Pizza := s_Margen_Pizza s;
     s_Adopcion_Retro := s_Adopcion_Retro s |}.

(** [float(agg.loc[idx, CV] or 0) + miss[i]*costo_var_default], written
    back into the row. *)
Definition backfilled (ev : list keyed) (costo_var_default : F64.float)
    (m : string) (s : stats) : stats :=
  set_Costo_variable s
    (F64.add (F64.or_zero (s_Costo_variable s))
             (F64.mul (miss ev m) costo_var_default)).

(** One turn of the backfill loop, for month [m]: the first row of [agg]
    with that month, when there is one. *)
Definition backfill_step (ev : list keyed) (costo_var_default : F64.float)
    (agg : list (option string * stats)) (m : string)
  : list (option string * stats) :=
  match list_find (λ a, a.1 = Some m) agg with
  | Some (idx, (k, s)) =>
      <[idx := (k, backfilled ev costo_var_default m s)]> agg
  | None => agg
  end.

(** [agg["Adopción Retro (%)"] = (agg["Adopción Retro (%)"]*100).round(2)] *)
Definition retro_pct (a : option string * stats) : option string * stats :=
  let s := a.2 in
  (a.1,
   {| s_Eventos := s_Eventos s; s_Precio_promedio := s_Precio_promedio s;
      s_Ingresos := s_Ingresos s; s_Costo_variable := s_Costo_variable s;
      s_Addons_Pizza := s_Addons_Pizza s; s_Margen_Pizza := s_Margen_Pizza s;
      s_Adopcion_Retro :=
        F64.round2 (F64.mul (s_Adopcion_Retro s) (F64.of_Z 100)) |}).

(** The seven columns as [base] is created: counts and mean NaN, the rest
    0.0. *)
Definition base_stats : stats :=
  {| s_Eventos := None; s_Precio_promedio := F64.nan;
     s_Ingresos := F64.zero; s_Costo_variable := F64.zero;
     s_Addons_Pizza := None; s_Margen_Pizza := F64.zero;
     s_Adopcion_Retro := F64.zero |}.

(** What the left merge leaves in a month that has no row in [agg]. *)
Definition nan_stats : stats :=
  {| s_Eventos := None; s_Precio_promedio := F64.nan;
     s_Ingresos := F64.nan; s_Costo_variable := F64.nan;
     s_Addons_Pizza := None; s_Margen_Pizza := F64.nan;
     s_Adopcion_Retro := F64.nan |}.

(** [base.drop(columns=overlap_cols).merge(agg, on="Mes", how="left")]: each
    month row takes the columns of every [agg] row with its key, in order,
    and NaN when there is none. *)
Definition merge_agg (agg : list (option string * stats))
  : list (string * stats) :=
  m ← SPANISH_MONTHS;
  match filter (λ a, a.1 = Some m) agg with
  | [] => [(m, nan_stats)]
  | l => (λ a, (m, a.2)) <$> l
  end.

(** *** The summary rows *)

Record monthly_row := mkMonthly {
  m_Mes : string;                 (* "Mes" *)
  m_Eventos : nat;                (* "Eventos" *)
  m_Precio_promedio : F64.float;  (* "Precio promedio (MXN)" *)
  m_Ingresos : F64.float;         (* "Ingresos (MXN)" *)
  m_Costo_variable : F64.float;   (* "Costo variable (MXN)" *)
  m_Gastos_fijos : F64.float;     (* "Gastos fijos (MXN)" *)
  m_Addons_Pizza : nat;           (* "Add-ons Pizza (#)" *)
  m_Margen_Pizza : F64.float;     (* "Margen Pizza (MXN)" *)
  m_Utilidad_neta : F64.float;    (* "Utilidad neta (MXN)" *)
  m_ARPU_real : F64.float;        (* "ARPU real (MXN)" *)
  m_Reservas_Meta : F64.float;    (* "Reservas/Meta (%)" *)
  m_Adopcion_Retro : F64.float;   (* "Adopción Retro (%)" *)
  m_Resenas_nuevas : F64.float    (* "Reseñas nuevas (#)" *)
}.

(** Lines 277 to 288: NaN to 0 in the seven columns, the fixed cost from
    [APPLY_FIXED_FROM_MONTH] on, the net profit and the ARPU.  The two
    columns filled later still hold the 0.0 of the creation of [base]. *)
Definition derive (gasto_fijo_mensual : F64.float) (b : string * stats)
  : monthly_row :=
  let '(mes, s) := b in
  let Eventos := default 0 (s_Eventos s) in
  let Precio_promedio := F64.fillna0 (s_Precio_promedio s) in
  let Ingresos := F64.fillna0 (s_Ingresos s) in
  let Costo_variable := F64.fillna0 (s_Costo_variable s) in
  let Addons_Pizza := default 0 (s_Addons_Pizza s) in
  let Margen_Pizza := F64.fillna0 (s_Margen_Pizza s) in
  let Adopcion_Retro := F64.fillna0 (s_Adopcion_Retro s) in
  let _num := month_to_num mes in
  let Gastos_fijos :=
    if (APPLY_FIXED_FROM_MONTH <=? _num)%Z then gasto_fijo_mensual
    else F64.zero in
  let Utilidad_neta :=
    F64.add (F64.sub (F64.sub Ingresos Costo_variable) Gastos_fijos)
            Margen_Pizza in
  let ARPU_real :=
    if bool_decide (0 < Eventos)
    then F64.div Ingresos (F64.of_nat Eventos) else F64.zero in
  {| m_Mes := mes; m_Eventos := Eventos;
     m_Precio_promedio := Precio_promedio; m_Ingresos := Ingresos;
     m_Costo_variable := Costo_variable; m_Gastos_fijos := Gastos_fijos;
     m_Addons_Pizza := Addons_Pizza; m_Margen_Pizza := Margen_Pizza;
     m_Utilidad_neta := Utilidad_neta; m_ARPU_real := ARPU_real;
     m_Reservas_Meta := F64.zero; m_Adopcion_Retro := Adopcion_Retro;
     m_Resenas_nuevas := F64.zero |}.

Definition set_Reservas_Meta (r : monthly_row) (v : F64.float)
  : monthly_row :=
  {| m_Mes := m_Mes r; m_Eventos := m_Eventos r;
     m_Precio_promedio := m_Precio_promedio r; m_Ingresos := m_Ingresos r;
     m_Costo_variable := m_Costo_variable r;
     m_Gastos_fijos := m_Gastos_fijos r; m_Addons_Pizza := m_Addons_Pizza r;
     m_Margen_Pizza := m_Margen_Pizza r;
     m_Utilidad_neta := m_Utilidad_neta r; m_ARPU_real := m_ARPU_real r;
     m_Reservas_Meta := v; m_Adopcion_Retro := m_Adopcion_Retro r;
     m_Resenas_nuevas := m_Resenas_nuevas r |}.

Definition set_Resenas_nuevas (r : monthly_row) (v : F64.float)
  : monthly_row :=
  {| m_Mes := m_Mes r; m_Eventos := m_Eventos r;
     m_Precio_promedio := m_Precio_promedio r; m_Ingresos := m_Ingresos r;
     m_Costo_variable := m_Costo_variable r;
     m_Gastos_fijos := m_Gastos_fijos r; m_Addons_Pizza := m_Addons_Pizza r;
     m_Margen_Pizza := m_Margen_Pizza r;
     m_Utilidad_neta := m_Utilidad_neta r; m_ARPU_real := m_ARPU_real r;
     m_Reservas_Meta := m_Reservas_Meta r;
     m_Adopcion_Retro := m_Adopcion_Retro r; m_Resenas_nuevas := v |}.

(** The booking ratio of one row against the joined [_Reservas] cell:
    [np.where(Eventos > 0, _Reservas / Eventos * 100, 0)]. *)
Definition booking_ratio (r : monthly_row) (_Reservas : F64.float)
  : F64.float :=
  if bool_decide (0 < m_Eventos r)
  then F64.mul (F64.div _Reservas (F64.of_nat (m_Eventos r))) (F64.of_Z 100)
  else F64.zero.

(** Lines 290 to 298.  The left merge with the Funnel sheet repeats a month
    row once per Funnel row of that month, and leaves NaN in a month the
    sheet does not list. *)
Definition funnel_step (funnel : option (list funnel_row))
    (base : list monthly_row) : list monthly_row :=
  match funnel with
  | Some ((_ :: _) as tmp) =>
      r ← base;
      let joined :=
        match filter (λ f, f_Mes f = Some (m_Mes r)) tmp with
        | [] => [F64.nan]
        | l => f_Reservas <$> l
        end in
      (λ _Reservas, set_Reservas_Meta r (booking_ratio r _Reservas))
        <$> joined
  | _ => (λ r, set_Reservas_Meta r F64.zero) <$> base
  end.

(** Lines 300 to 305.  [Series.map] by a series whose index repeats a key
    raises. *)
Definition reviews_step (monthly : option (list monthly_sheet_row))
    (base : list monthly_row) : option (list monthly_row) :=
  match monthly with
  | Some ((_ :: _) as sheet) =>
      if bool_decide (NoDup (ms_Mes <$> sheet)) then
        Some ((λ r,
                 let mapped :=
                   match filter (λ x, ms_Mes x = Some (m_Mes r)) sheet with
                   | x :: _ => ms_Resenas x
                   | [] => F64.nan
                   end in
                 let filled :=
                   if F64.isna mapped then m_Resenas_nuevas r else mapped in
                 set_Resenas_nuevas r (F64.fillna0 filled)) <$> base)
      else None
  | _ => Some base
  end.

(** Lines 307 to 310: every column but the month and the two counts is
    rounded to two decimals. *)
Definition round_row (r : monthly_row) : monthly_row :=
  {| m_Mes := m_Mes r; m_Eventos := m_Eventos r;
     m_Precio_promedio := F64.round2 (m_Precio_promedio r);
     m_Ingresos := F64.round2 (m_Ingresos r);
     m_Costo_variable := F64.round2 (m_Costo_variable r);
     m_Gastos_fijos := F64.round2 (m_Gastos_fijos r);
     m_Addons_Pizza := m_Addons_Pizza r;
     m_Margen_Pizza := F64.round2 (m_Margen_Pizza r);
     m_Utilidad_neta := F64.round2 (m_Utilidad_neta r);
     m_ARPU_real := F64.round2 (m_ARPU_real r);
     m_Reservas_Meta := F64.round2 (m_Reservas_Meta r);
     m_Adopcion_Retro := F64.round2 (m_Adopcion_Retro r);
     m_Resenas_nuevas := F64.round2 (m_Resenas_nuevas r) |}.

(** The code of a month in [pd.Categorical(.., categories=SPANISH_MONTHS)];
    a name that is not a category is NaN and sorts last. *)
Definition cat_code (mes : string) : nat :=
  match list_find (λ m, m = mes) SPANISH_MONTHS with
  | Some (i, _) => i
  | None => length SPANISH_MONTHS
  end.

(** [base.sort_values("Mes")]: rows of one month keep their order. *)
Fixpoint insert_row (r : monthly_row) (l : list monthly_row)
  : list monthly_row :=
  match l with
  | [] => [r]
  | x :: l' =>
      if cat_code (m_Mes r) <=? cat_code (m_Mes x) then r :: l
      else x :: insert_row r l'
  end.

Definition sort_values_Mes (l : list monthly_row) : list monthly_row :=
  foldr insert_row [] l.

Section Parsers.

(** [pd.to_datetime(ev["Fecha"], errors="coerce")], the reading of the
    whole "Fecha" column (see [Calendar]). *)
Variable to_datetime_column : list fecha_cell → list (option date).

(** The completed events with their "Mes" column (lines 235 to 240). *)
Definition with_Mes (ev : list event) : list keyed :=
  zip (Mes_of <$> to_datetime_column (ev_Fecha <$> ev)) ev.

Definition compute_monthly (dfs : Dfs) : option (list monthly_row) :=
  let costo_var_default :=
    get_assumption dfs "Costo variable por evento (MXN)" F64.zero in
  let gasto_fijo_mensual :=
    get_assumption dfs "Gastos fijos mensuales (MXN)" F64.zero in
  if negb (str_accessor_ok dfs) then None else
  let ev := filter (λ e, is_efectuado e = true) (Event_Log dfs) in
  let base :=
    if bool_decide (ev = []) then (λ m, (m, base_stats)) <$> SPANISH_MONTHS
    else
      let ev := with_Mes ev in
      let agg := groupby_agg ev in
      let agg := foldl (backfill_step ev costo_var_default) agg
                       SPANISH_MONTHS in
      let agg := retro_pct <$> agg in
      merge_agg agg in
  let base := derive gasto_fijo_mensual <$> base in
  let base := funnel_step (Funnel dfs) base in
  base ← reviews_step (Monthly dfs) base;
  let base := round_row <$> base in
  Some (sort_values_Mes base).

(** *** The month totals before rounding

    What the rollup holds for month [m] just before [Series.round(2)], read
    off the event log: the totals of the month's completed events, the
    backfilled variable cost, and the columns derived from them. *)

Definition completed (dfs : Dfs) : list keyed :=
  with_Mes (filter (λ e, is_efectuado e = true) (Event_Log dfs)).

Definition month_events (dfs : Dfs) (m : string) : list event :=
  group (completed dfs) (Some m).

Definition costo_var_default (dfs : Dfs) : F64.float :=
  get_assumption dfs "Costo variable por evento (MXN)" F64.zero.

Definition gasto_fijo_mensual (dfs : Dfs) : F64.float :=
  get_assumption dfs "Gastos fijos mensuales (MXN)" F64.zero.

(** The aggregates of a month that has completed events, and NaN in a
    month that has none. *)
Definition month_stats (dfs : Dfs) (m : string) : stats :=
  if bool_decide (month_events dfs m = []) then nan_stats
  else
    (retro_pct
       (Some m,
        backfilled (completed dfs) (costo_var_default dfs) m
                   (aggregate (month_events dfs m)))).2.

Definition unrounded (dfs : Dfs) (m : string) : monthly_row :=
  derive (gasto_fijo_mensual dfs) (m, month_stats dfs m).

End Parsers.

(** The Funnel and Monthly sheets hold at most one row per month. *)
Definition funnel_keys_unique (dfs : Dfs) : Prop :=
  match Funnel dfs with
  | Some tmp => NoDup (f_Mes <$> tmp)
  | None => True
  end.



End Rollup.

(** ** Sample sheets, used by the examples and witnesses below *)

Module Samples.
Import Rollup.

(** *** A reading of dates

    The examples need pandas to read some texts as dates.  This reader
    knows two spellings, "2024-03-05" and "03/05/2024" (month first), and
    reads a column the way pandas 2 does: in the spelling of the first
    text that is a date, so that a text in the other spelling is NaT
    there. *)

Definition digit_val (c : ascii) : option Z :=
  let n := Ascii.N_of_ascii c in
  if ((48 <=? n) && (n <=? 57))%N then Some (Z.of_N n - 48)%Z else None.

Definition number (cs : list ascii) : option Z :=
  foldl (λ acc c, a ← acc; d ← digit_val c; Some (10 * a + d)%Z) (Some 0%Z) cs.

Definition checked (y m d : Z) : option date :=
  if ((1 <=? y) && (y <=? 9999) && (1 <=? m) && (m <=? 12) && (1 <=? d)
      && (d <=? Calendar.days_in_month y m))%Z
  then Some (mkDate y m d) else None.

Inductive spelling := ISO | MonthFirst.

Definition parse_as (f : spelling) (s : string) : option date :=
  match f, list_ascii_of_string s with
  | ISO, [y1; y2; y3; y4; "-"; m1; m2; "-"; d1; d2]%char =>
      y ← number [y1; y2; y3; y4]; m ← number [m1; m2]; d ← number [d1; d2];
      checked y m d
  | MonthFirst, [m1; m2; "/"; d1; d2; "/"; y1; y2; y3; y4]%char =>
      y ← number [y1; y2; y3; y4]; m ← number [m1; m2]; d ← number [d1; d2];
      checked y m d
  | _, _ => None
  end.

Definition spelling_of (s : string) : option spelling :=
  if bool_decide (is_Some (parse_as ISO s)) then Some ISO
  else if bool_decide (is_Some (parse_as MonthFirst s)) then Some MonthFirst
  else None.

Definition to_datetime_text (s : string) : option date :=
  f ← spelling_of s; parse_as f s.

Definition column_spelling (col : list fecha_cell) : option spelling :=
  head (omap (λ c, match c with FText s => spelling_of s | _ => None end) col).

Definition to_datetime_column (col : list fecha_cell) : list (option date) :=
  (λ c, match c with
        | FBlank => None
        | FStamp d => Some d
        | FText s => f ← column_spelling col; parse_as f s
        end) <$> col.

(** *** Rows *)

(** A row with every cell blank. *)
Definition blank_event : event :=
  {| ev_ID := Missing; ev_Fecha := FBlank; ev_Hora := Missing;
     ev_Hora_fin := Missing; ev_Nombre := None; ev_Direccion := None;
     ev_Telefono := None; ev_Colonia_Zona := None; ev_Paquete := None;
     ev_Precio := F64.nan; ev_Addon_Pizza := None;
     ev_Margen_Pizza := F64.nan; ev_Retro_exterior := None;
     ev_Costo_variable := F64.nan; ev_Notas := None; ev_Estatus := None |}.

(** A booking: id, client, date, start and end time, status. *)
Definition booking (id : Qc) (name : string) (d : fecha_cell)
    (h h_fin : raw time) (status : string) : event :=
  {| ev_ID := Value id; ev_Fecha := d; ev_Hora := h; ev_Hora_fin := h_fin;
     ev_Nombre := Some name; ev_Direccion := None; ev_Telefono := None;
     ev_Colonia_Zona := None; ev_Paquete := Some "Retro";
     ev_Precio := F64.nan; ev_Addon_Pizza := None;
     ev_Margen_Pizza := F64.nan; ev_Retro_exterior := None;
     ev_Costo_variable := F64.nan; ev_Notas := None;
     ev_Estatus := Some status |}.

Definition march_5 : date := mkDate 2024 3 5.

(** A row with its id blanked. *)
Definition set_ID_blank (e : event) : event := Normalizer.set_nan "ID" e.

(** 10:00 to 10:00:30 on 5 March 2024. *)
Definition short_event : event :=
  booking (Normalizer.Qc_of_Z 1) "Ana" (FStamp march_5) (Value (mkTime 10 0 0))
          (Value (mkTime 10 0 30)) "Pendiente".

(** 16:30 to 19:00, and a second booking at the same start. *)
Definition afternoon_event : event :=
  booking (Normalizer.Qc_of_Z 2) "Luis" (FStamp march_5)
          (Value (mkTime 16 30 0)) (Value (mkTime 19 0 0)) "Pendiente".

Definition same_start_event : event :=
  booking (Normalizer.Qc_of_Z 3) "Eva" (FStamp march_5)
          (Value (mkTime 16 30 0)) Missing "Efectuado".

(** 23:00 on the last day the calendar of Python has, without an end
    time. *)
Definition last_evening : event :=
  booking (Normalizer.Qc_of_Z 4) "Noé" (FStamp (mkDate 9999 12 31))
          (Value (mkTime 23 0 0)) Missing "Pendiente".

(** Two bookings whose dates are texts, in two spellings. *)
Definition iso_event : event :=
  booking (Normalizer.Qc_of_Z 5) "Iris" (FText "2024-03-05") Missing Missing
          "Pendiente".

Definition slash_event : event :=
  booking (Normalizer.Qc_of_Z 6) "Saúl" (FText "05/03/2024") Missing Missing
          "Pendiente".

Definition clock : datetime := mkDatetime (mkDate 2024 1 1) (mkTime 0 0 0).

(** A completed event: date, price, variable cost, pizza margin. *)
Definition sale (d : date) (price cost margin : F64.float) : event :=
  {| ev_ID := Value (Normalizer.Qc_of_Z 1); ev_Fecha := FStamp d; ev_Hora := Missing;
     ev_Hora_fin := Missing; ev_Nombre := Some "Ana"; ev_Direccion := None;
     ev_Telefono := None; ev_Colonia_Zona := None; ev_Paquete := None;
     ev_Precio := price; ev_Addon_Pizza := None; ev_Margen_Pizza := margin;
     ev_Retro_exterior := None; ev_Costo_variable := cost; ev_Notas := None;
     ev_Estatus := Some "Efectuado" |}.

Definition setting (name : string) (v : F64.float) : assumption :=
  {| a_Variable := Some name; a_Valor := Value v |}.

(** A decimal number, as the float64 nearest to it: [decimal n k] is
    n / 10^k. *)
Definition decimal (n : Z) (k : nat) : F64.float :=
  F64.div (F64.of_Z n) (F64.of_Z (10 ^ Z.of_nat k)).

(** 1/256, less than half a cent, a float64. *)
Definition subcent : F64.float := F64.div (F64.of_Z 1) (F64.of_Z 256).

(** *** Tables of bookings *)

(** The number 7/2, that is 3.5. *)
Definition three_and_a_half : Qc := Q2Qc (7 # 2).

(** A table of two bookings with the ids 3 and 3.5. *)
Definition fractional_ids : table :=
  {| columns := Normalizer.need_cols;
     rows := [ booking (Normalizer.Qc_of_Z 3) "Ana" (FStamp march_5)
                       Missing Missing "Pendiente";
               booking three_and_a_half "Luis" (FStamp march_5)
                       Missing Missing "Pendiente" ] |}.

(** The table of the specification: ids 3, 3, blank and 7. *)
Definition repeated_ids : table :=
  {| columns := Normalizer.need_cols;
     rows := [ booking (Normalizer.Qc_of_Z 3) "Ana" (FStamp march_5)
                       Missing Missing "Pendiente";
               booking (Normalizer.Qc_of_Z 3) "Luis" (FStamp march_5)
                       Missing Missing "Pendiente";
               set_ID_blank
                 (booking (Normalizer.Qc_of_Z 0) "Eva" (FStamp march_5)
                          Missing Missing "");
               booking (Normalizer.Qc_of_Z 7) "Noé" (FStamp march_5)
                       Missing Missing "Efectuado" ] |}.

(** The table a pass of the normaliser returns; the table itself when the
    pass raises. *)
Definition normalised (df : table) : table :=
  default df (Normalizer.ensure_eventlog_columns df).

(** The integers of the "ID" column of a normalised table. *)
Definition ids_of (df : table) : list (option Z) :=
  (λ x : option Qc, Normalizer.trunc <$> x) <$> Normalizer.id_column df.

(** *** Workbooks *)

(** One March sale with a price and a pizza margin of 1/256 each. *)
Definition dfs_subcent : Dfs :=
  {| Assumptions := None;
     Event_Log := [ sale march_5 subcent F64.zero subcent ];
     Estatus_object := true; Funnel := None; Monthly := None |}.

(** One March sale of 1000 with a variable cost of 1/256. *)
Definition dfs_subcent_cost : Dfs :=
  {| Assumptions := None;
     Event_Log := [ sale march_5 (F64.of_Z 1000) subcent F64.nan ];
     Estatus_object := true; Funnel := None; Monthly := None |}.

(** The example of the specification: fixed cost 5000, default variable
    cost 200, one completed March event of 1000 without a variable cost. *)
Definition dfs_march : Dfs :=
  {| Assumptions :=
       Some [ setting "Gastos fijos mensuales (MXN)" (F64.of_Z 5000);
              setting "Costo variable por evento (MXN)" (F64.of_Z 200) ];
     Event_Log := [ sale march_5 (F64.of_Z 1000) F64.nan F64.nan ];
     Estatus_object := true; Funnel := None; Monthly := None |}.


(** No sheet of events: the log the normaliser builds on an empty frame. *)
Definition dfs_no_sheet : Dfs :=
  {| Assumptions := None; Event_Log := []; Estatus_object := false;
     Funnel := None; Monthly := None |}.

(** No event at all, fixed cost 1/256. *)
Definition dfs_subcent_fixed : Dfs :=
  {| Assumptions := Some [ setting "Gastos fijos mensuales (MXN)" subcent ];
     Event_Log := []; Estatus_object := true;
     Funnel := None; Monthly := None |}.

(** Three March sales and one confirmed reservation in March. *)
Definition dfs_funnel : Dfs :=
  {| Assumptions := None;
     Event_Log :=
       [ sale march_5 (F64.of_Z 1000) F64.zero F64.nan;
         sale march_5 (F64.of_Z 1200) F64.zero F64.nan;
         sale march_5 (F64.of_Z 900) F64.zero F64.nan ];
     Estatus_object := true;
     Funnel := Some [ {| f_Mes := Some "Mar"; f_Reservas := F64.of_Z 1 |} ];
     Monthly := None |}.


(** The three sales, with a Funnel sheet that only has a row for April. *)
Definition dfs_funnel_april : Dfs :=
  {| Assumptions := None;
     Event_Log := Event_Log dfs_funnel;
     Estatus_object := true;
     Funnel := Some [ {| f_Mes := Some "Abr"; f_Reservas := F64.of_Z 2 |} ];
     Monthly := None |}.


(** The fixed cost is configured, with a blank value. *)
Definition dfs_blank_fixed : Dfs :=
  {| Assumptions :=
       Some [ {| a_Variable := Some "Gastos fijos mensuales (MXN)";
                 a_Valor := Missing |} ];
     Event_Log := [ sale march_5 (F64.of_Z 1000) F64.nan F64.nan ];
     Estatus_object := true; Funnel := None; Monthly := None |}.

(** The summary of a workbook, under the sample reading of dates. *)
Definition rows_of (dfs : Dfs) : list monthly_row :=
  default [] (compute_monthly to_datetime_column dfs).

End Samples.


(** * Properties *)

Module NormalizerFacts.
Import Normalizer Samples.

(** *** Integers in the float column *)

Lemma Qc_of_Z_le a b : (Qc_of_Z a ≤ Qc_of_Z b)%Qc ↔ (a ≤ b)%Z.
Proof.
  unfold Qc_of_Z, Qcle. cbn [this Q2Qc]. rewrite !Qred_correct.
  by rewrite <-Zle_Qle.
Qed.

Lemma Qc_of_Z_inj a b : Qc_of_Z a = Qc_of_Z b → a = b.
Proof.
  intros H. apply (f_equal this) in H. cbn [this Qc_of_Z Q2Qc] in H.
  apply inject_Z_injective.
  by rewrite <-(Qred_correct (inject_Z a)), <-(Qred_correct (inject_Z b)), H.
Qed.

Lemma trunc_Qc_of_Z z : trunc (Qc_of_Z z) = z.
Proof.
  unfold trunc, Qc_of_Z. case_bool_decide; cbn [this Q2Qc].
  - by rewrite Qred_correct, Qfloor_Z.
  - by rewrite Qred_correct, Qceiling_Z.
Qed.


#[local] Opaque Qc_of_Z.

Lemma series_max_elem s m : series_max s = Some m → Some m ∈ s.
Proof.
  revert m. induction s as [|[w|] s IH]; intros m Hm; simpl in *; [done| |].
  - destruct (series_max s) as [m'|]; simplify_eq.
    + unfold Qc_max. case_bool_decide.
      * right. by apply IH.
      * left.
    + left.
  - right. by apply IH.
Qed.

Lemma series_max_None s : series_max s = None → ∀ v, Some v ∉ s.
Proof.
  induction s as [|[w|] s IH]; simpl; intros H v Hin.
  - by apply elem_of_nil in Hin.
  - by destruct (series_max s).
  - apply elem_of_cons in Hin as [?|?]; [done|]. by eapply IH.
Qed.

(** On a column of integers the maximum is one of them and bounds them. *)
Lemma series_max_bound s m :
  (∀ q, Some q ∈ s → ∃ z, q = Qc_of_Z z) →
  series_max s = Some m →
  ∃ zm, m = Qc_of_Z zm ∧ ∀ z, Some (Qc_of_Z z) ∈ s → (z ≤ zm)%Z.
Proof.
  revert m. induction s as [|[w|] s IH]; intros m Hint Hm; simpl in *.
  - done.
  - destruct (Hint w) as [zw ->]; [by left|].
    destruct (series_max s) as [m'|] eqn:E; simplify_eq.
    + destruct (IH m') as (zm' & -> & Hle); [|done|].
      { intros q Hq. apply Hint. by right. }
      unfold Qc_max. case_bool_decide as Hc.
      * apply (proj1 (Qc_of_Z_le _ _)) in Hc. exists zm'. split; [done|].
        intros z [Heq|Hin]%elem_of_cons; [|by apply Hle].
        apply (inj Some), Qc_of_Z_inj in Heq. lia.
      * rewrite Qc_of_Z_le in Hc. exists zw. split; [done|].
        intros z [Heq|Hin]%elem_of_cons.
        -- apply (inj Some), Qc_of_Z_inj in Heq. lia.
        -- specialize (Hle _ Hin). lia.
    + exists zw. split; [done|].
      intros z [Heq|Hin]%elem_of_cons.
      * apply (inj Some), Qc_of_Z_inj in Heq. lia.
      * by destruct (series_max_None _ E _ Hin).
  - destruct (IH m) as (zm & -> & Hle); [|done|].
    { intros q Hq. apply Hint. by right. }
    exists zm. split; [done|].
    intros z [Heq|Hin]%elem_of_cons; [done|by apply Hle].
Qed.

Lemma isna_all_false s : isna_all s = false → is_Some (series_max s).
Proof.
  induction s as [|[w|] s IH]; simpl; intros H; [done| |].
  - destruct (series_max s); eauto.
  - auto.
Qed.

Lemma isna_all_true s : isna_all s = true → ∀ v, Some v ∉ s.
Proof.
  induction s as [|[w|] s IH]; simpl; intros H v Hin.
  - by apply elem_of_nil in Hin.
  - done.
  - apply elem_of_cons in Hin as [?|?]; [done|]. by eapply IH.
Qed.

(** *** The steps of [stable_ids] *)

Lemma length_fill_nan s new : length (fill_nan s new) = length s.
Proof.
  revert new. induction s as [|[w|] s IH]; intros new; simpl;
    [done|by rewrite IH|].
  destruct new; simpl; by rewrite IH.
Qed.

Lemma fill_nan_Some s new i v :
  s !! i = Some (Some v) → fill_nan s new !! i = Some (Some v).
Proof.
  revert new i.
  induction s as [|[w|] s IH]; intros new [|i] H; simplify_eq/=; auto.
  destruct new; simpl; auto.
Qed.

Lemma fill_nan_None s new i :
  s !! i = Some None →
  fill_nan s new !! i
  = Some (Qc_of_Z <$> new !! count_nan (take i s)).
Proof.
  revert new i.
  induction s as [|[w|] s IH]; intros new [|i] H; simplify_eq/=.
  - rewrite (IH new i H). unfold count_nan. simpl.
    rewrite filter_cons_False; [done|]. intros ?; done.
  - destruct new; done.
  - unfold count_nan in *. rewrite filter_cons_True; [|done]. simpl.
    destruct new as [|n rest]; simpl.
    + rewrite (IH [] i H). by rewrite !lookup_nil.
    + by rewrite (IH rest i H).
Qed.

Lemma length_duplicated_from seen s :
  length (duplicated_from seen s) = length s.
Proof. revert seen. induction s; intros; simpl; auto. Qed.

Lemma duplicated_from_lookup seen s i x :
  s !! i = Some x →
  duplicated_from seen s !! i = Some (bool_decide (x ∈ seen ∨ x ∈ take i s)).
Proof.
  revert seen i. induction s as [|y s IH]; intros seen [|i] H; simplify_eq/=.
  - f_equal. apply bool_decide_ext. rewrite elem_of_nil. tauto.
  - rewrite (IH _ _ H). f_equal. apply bool_decide_ext.
    rewrite !elem_of_cons. tauto.
Qed.

Lemma duplicated_lookup s i x :
  s !! i = Some x →
  duplicated s !! i = Some (bool_decide (x ∈ take i s)).
Proof.
  intros H. unfold duplicated. rewrite (duplicated_from_lookup _ _ _ _ H).
  f_equal. apply bool_decide_ext. rewrite elem_of_nil. tauto.
Qed.

Lemma elem_of_where_from k mask j :
  j ∈ where_from k mask ↔ ∃ i, j = k + i ∧ mask !! i = Some true.
Proof.
  revert k. induction mask as [|[|] mask IH]; intros k; simpl.
  - rewrite elem_of_nil. split; [done|]. by intros (i & _ & ?).
  - rewrite elem_of_cons, IH. split.
    + intros [->|(i & -> & Hi)]; [exists 0|exists (S i)]; split; auto with lia.
    + intros ([|i] & -> & Hi); [left; lia|right; exists i; split; [lia|done]].
  - rewrite IH. split.
    + intros (i & -> & Hi). exists (S i). split; [lia|done].
    + intros ([|i] & -> & Hi); [done|]. exists i. split; [lia|done].
Qed.

Lemma NoDup_where_from k mask : NoDup (where_from k mask).
Proof.
  revert k. induction mask as [|[|] mask IH]; intros k; simpl; auto.
  - constructor.
  - constructor; [|apply IH].
    rewrite elem_of_where_from. intros (i & ? & _). lia.
Qed.

Lemma elem_of_np_where mask j : j ∈ np_where mask ↔ mask !! j = Some true.
Proof.
  unfold np_where. rewrite elem_of_where_from. split.
  - by intros (i & -> & ?).
  - intros ?. by exists j.
Qed.

(** The reassignment loop: the flagged positions receive consecutive fresh
    ids in order, every other position is left alone. *)
Lemma foldl_reassign_spec idxs s m :
  NoDup idxs → (∀ i, i ∈ idxs → i < length s) →
  length (foldl reassign (s, m) idxs).1 = length s ∧
  (∀ j, j ∉ idxs → (foldl reassign (s, m) idxs).1 !! j = s !! j) ∧
  (∀ t j, idxs !! t = Some j →
     (foldl reassign (s, m) idxs).1 !! j
     = Some (Some (Qc_of_Z (m + 1 + Z.of_nat t)))).
Proof.
  revert s m. induction idxs as [|i idxs IH]; intros s m Hnd Hlt; simpl.
  - split_and!; [done|done|]. intros t j H. by rewrite lookup_nil in H.
  - apply NoDup_cons in Hnd as [Hi Hnd].
    destruct (IH (<[i:=Some (Qc_of_Z (m + 1))]> s) (m + 1)%Z Hnd)
      as (Hlen & Hout & Hin).
    { intros j Hj. rewrite length_insert. apply Hlt. by right. }
    split_and!.
    + by rewrite Hlen, length_insert.
    + intros j Hj. apply not_elem_of_cons in Hj as [Hne Hj].
      rewrite (Hout j Hj). by apply list_lookup_insert_ne.
    + intros [|t] j Ht; simplify_eq/=.
      * rewrite (Hout j Hi). rewrite list_lookup_insert_eq.
        -- do 3 f_equal. lia.
        -- apply Hlt. by left.
      * rewrite (Hin t j Ht). do 3 f_equal. lia.
Qed.

Lemma astype_int_Some s :
  (∀ i, s !! i ≠ Some None) →
  ∃ out, astype_int s = Some out ∧ length out = length s ∧
         ∀ i q, s !! i = Some (Some q) → out !! i = Some (trunc q).
Proof.
  induction s as [|[v|] s IH]; intros H; simpl.
  - by exists [].
  - destruct IH as (out & -> & Hlen & Hout).
    { intros i. apply (H (S i)). }
    exists (trunc v :: out). split_and!; [done|by simpl; rewrite Hlen|].
    intros [|i] q Hi; simplify_eq/=; [done|by apply Hout].
  - by destruct (H 0).
Qed.

Lemma astype_int_fmap out :
  astype_int ((λ z, Some (Qc_of_Z z)) <$> out) = Some out.
Proof.
  induction out as [|v out IH]; csimpl; [done|].
  by rewrite IH, trunc_Qc_of_Z.
Qed.

Lemma count_nan_app s t : count_nan (s ++ t) = count_nan s + count_nan t.
Proof. unfold count_nan. by rewrite filter_app, length_app. Qed.

Lemma count_nan_take_le s i : count_nan (take i s) ≤ count_nan s.
Proof.
  rewrite <-(take_drop i s) at 2. rewrite count_nan_app. lia.
Qed.

Lemma count_nan_take_lt s i j :
  j < i → s !! j = Some None → count_nan (take j s) < count_nan (take i s).
Proof.
  intros Hji Hj.
  assert (take j s = take j (take i s)) as ->.
  { rewrite take_take. f_equal. lia. }
  assert (take i s !! j = Some None) as Hj'.
  { by rewrite lookup_take_lt. }
  rewrite <-(take_drop_middle _ _ _ Hj') at 2.
  rewrite count_nan_app. unfold count_nan at 3.
  rewrite filter_cons_True; [|done]. simpl. lia.
Qed.

Lemma count_nan_lookup_lt s i :
  s !! i = Some None → count_nan (take i s) < count_nan s.
Proof.
  intros Hi. rewrite <-(take_drop_middle _ _ _ Hi) at 2.
  rewrite count_nan_app. unfold count_nan at 3.
  rewrite filter_cons_True; [|done]. simpl. lia.
Qed.

Lemma fill_nan_no_nan s new : count_nan s = 0 → fill_nan s new = s.
Proof.
  unfold count_nan. induction s as [|[v|] s IH]; intros H; [done| |].
  - rewrite filter_cons_False in H; [|done]. simpl. by rewrite IH.
  - by rewrite filter_cons_True in H.
Qed.

(** The fill step: numbers stay, the NaN cells take [M+1, M+2, ...]. *)
Lemma fill_cases (s : list (option Qc)) (M : Z) :
  let k := Z.of_nat (count_nan s) in
  let s1 := fill_nan s (seqZ (M + 1) k) in
  ∀ i x, s1 !! i = Some x →
     (∃ v, x = Some v ∧ s !! i = Some (Some v)) ∨
     (x = Some (Qc_of_Z (M + 1 + Z.of_nat (count_nan (take i s))))
      ∧ s !! i = Some None).
Proof.
  intros k s1 i x Hi.
  assert (is_Some (s !! i)) as [[v|] Hv].
  { apply lookup_lt_is_Some. rewrite <-(length_fill_nan s (seqZ (M + 1) k)).
    by eapply lookup_lt_Some. }
  - left. exists v. unfold s1 in Hi.
    rewrite (fill_nan_Some _ _ _ _ Hv) in Hi. by simplify_eq.
  - right. unfold s1 in Hi. rewrite (fill_nan_None _ _ _ Hv) in Hi.
    rewrite lookup_seqZ_lt in Hi
      by (pose proof (count_nan_lookup_lt _ _ Hv); lia).
    by simplify_eq/=.
Qed.

Lemma fill_no_nan (s : list (option Qc)) (M : Z) :
  ∀ i, fill_nan s (seqZ (M + 1) (Z.of_nat (count_nan s))) !! i ≠ Some None.
Proof.
  intros i Hi. by destruct (fill_cases s M _ _ Hi) as [(v & ? & _)|[? _]].
Qed.

Lemma fill_spec (s : list (option Qc)) (M : Z) :
  (∀ q, Some q ∈ s → ∃ z, q = Qc_of_Z z ∧ (z ≤ M)%Z) →
  let k := Z.of_nat (count_nan s) in
  let s1 := fill_nan s (seqZ (M + 1) k) in
  (∀ q, Some q ∈ s1 → ∃ z, q = Qc_of_Z z ∧ (z ≤ M + k)%Z) ∧
  (∀ i v, s !! i = Some (Some v) → s1 !! i = Some (Some v)) ∧
  (∀ i, s !! i = Some None →
     ∃ o, s1 !! i = Some (Some (Qc_of_Z o)) ∧ (M < o)%Z ∧
          Some (Qc_of_Z o) ∉ take i s1) ∧
  (∀ i v, s !! i = Some (Some v) →
     (Some v ∈ take i s1 ↔ Some v ∈ take i s)).
Proof.
  intros Hle k s1.
  assert (Hold : ∀ i v, s !! i = Some (Some v) → s1 !! i = Some (Some v)).
  { intros i v Hi. by apply fill_nan_Some. }
  pose proof (fill_cases s M) as Hcases. cbv zeta in Hcases.
  fold k in Hcases. fold s1 in Hcases.
  split_and!.
  - intros q Hq. apply list_elem_of_lookup in Hq as [i Hi].
    destruct (Hcases _ _ Hi) as [(w & Hx & Hw)|[Hx Hw]].
    + apply (inj Some) in Hx as ->. apply list_elem_of_lookup_2 in Hw.
      destruct (Hle _ Hw) as (z & -> & Hz). exists z. split; [done|lia].
    + apply (inj Some) in Hx as ->. pose proof (count_nan_lookup_lt _ _ Hw).
      eexists. split; [done|]. lia.
  - done.
  - intros i Hi.
    assert (His : is_Some (s1 !! i)).
    { apply lookup_lt_is_Some. unfold s1. rewrite length_fill_nan.
      by eapply lookup_lt_Some. }
    destruct His as [x Hx].
    destruct (Hcases _ _ Hx) as [(w & _ & Hw)|[-> _]]; [congruence|].
    eexists. split; [done|]. split; [lia|].
    intros Hel. apply elem_of_take in Hel as (j & Hj & Hji).
    destruct (Hcases _ _ Hj) as [(w & Hx' & Hw)|[Hx' Hw]].
    + apply (inj Some) in Hx'. apply list_elem_of_lookup_2 in Hw.
      destruct (Hle _ Hw) as (z & Hz & Hzm). rewrite Hz in Hx'.
      apply Qc_of_Z_inj in Hx'. lia.
    + apply (inj Some), Qc_of_Z_inj in Hx'.
      pose proof (count_nan_take_lt _ _ _ Hji Hw). lia.
  - intros i v Hi. rewrite !elem_of_take. split.
    + intros (j & Hj & Hji). exists j. split; [|done].
      destruct (Hcases _ _ Hj) as [(w & Hx & Hw)|[Hx Hw]].
      * by apply (inj Some) in Hx as ->.
      * apply (inj Some) in Hx. apply list_elem_of_lookup_2 in Hi.
        destruct (Hle _ Hi) as (z & Hz & Hzm). rewrite Hz in Hx.
        apply Qc_of_Z_inj in Hx. lia.
    + intros (j & Hj & Hji). exists j. split; [|done]. by apply Hold.
Qed.

(** The repair of duplicates, on a column without NaN. *)
Lemma dedup_cases (s1 : list (option Qc)) (m : Z) :
  let s2 := (foldl reassign (s1, m) (np_where (duplicated s1))).1 in
  length s2 = length s1 ∧
  (∀ i x, s1 !! i = Some x → x ∉ take i s1 → s2 !! i = Some x) ∧
  (∀ i x, s1 !! i = Some x → x ∈ take i s1 →
     ∃ t, np_where (duplicated s1) !! t = Some i ∧
          s2 !! i = Some (Some (Qc_of_Z (m + 1 + Z.of_nat t)))).
Proof.
  intros s2.
  destruct (foldl_reassign_spec (np_where (duplicated s1)) s1 m)
    as (Hlen & Hout & Hin).
  { apply NoDup_where_from. }
  { intros i Hi. apply elem_of_np_where in Hi.
    apply lookup_lt_Some in Hi. unfold duplicated in Hi.
    by rewrite length_duplicated_from in Hi. }
  fold s2 in Hlen, Hout, Hin. split_and!; [done| |].
  - intros i x Hi Hx. rewrite Hout; [done|].
    rewrite elem_of_np_where, (duplicated_lookup _ _ _ Hi).
    intros [=Hb]. by apply bool_decide_eq_true in Hb.
  - intros i x Hi Hx.
    assert (i ∈ np_where (duplicated s1)) as Hel.
    { rewrite elem_of_np_where, (duplicated_lookup _ _ _ Hi).
      f_equal. by apply bool_decide_eq_true. }
    apply list_elem_of_lookup in Hel as [t Ht]. exists t. split; [done|].
    by apply Hin.
Qed.

Lemma dedup_no_nan (s1 : list (option Qc)) (m : Z) :
  (∀ i, s1 !! i ≠ Some None) →
  ∀ i, (foldl reassign (s1, m) (np_where (duplicated s1))).1 !! i
       ≠ Some None.
Proof.
  intros Hnn i Hi. destruct (dedup_cases s1 m) as (Hlen & Hkeep & Hnew).
  assert (is_Some (s1 !! i)) as [xi Hxi].
  { apply lookup_lt_is_Some. rewrite <-Hlen. by eapply lookup_lt_Some. }
  destruct (decide (xi ∈ take i s1)) as [Di|Di].
  - destruct (Hnew _ _ Hxi Di) as (ti & Hti & Hi'). congruence.
  - rewrite (Hkeep _ _ Hxi Di) in Hi. simplify_eq. by destruct (Hnn i).
Qed.

Lemma dedup_spec (s1 : list (option Qc)) (m : Z) :
  (∀ i, s1 !! i ≠ Some None) →
  (∀ q, Some q ∈ s1 → ∃ z, q = Qc_of_Z z ∧ (z ≤ m)%Z) →
  let s2 := (foldl reassign (s1, m) (np_where (duplicated s1))).1 in
  (∀ i x, s1 !! i = Some x → x ∈ take i s1 →
     ∃ o, s2 !! i = Some (Some (Qc_of_Z o)) ∧ (m < o)%Z) ∧
  NoDup s2 ∧
  (∀ q, Some q ∈ s2 → ∃ z, q = Qc_of_Z z).
Proof.
  intros Hnn Hle s2.
  destruct (dedup_cases s1 m) as (Hlen & Hkeep & Hnew).
  fold s2 in Hlen, Hkeep, Hnew.
  assert (Hsmall : ∀ n y, s1 !! n = Some y →
            ∃ z, y = Some (Qc_of_Z z) ∧ (z ≤ m)%Z).
  { intros n [v|] Hn; [|by destruct (Hnn n)].
    destruct (Hle v) as (z & -> & Hz); [by eapply list_elem_of_lookup_2|].
    by exists z. }
  split_and!.
  - intros i x Hi Hx. destruct (Hnew i x Hi Hx) as (t & _ & Ht).
    eexists. split; [done|lia].
  - apply NoDup_alt. intros i j x Hi Hj.
    assert (is_Some (s1 !! i)) as [xi Hxi].
    { apply lookup_lt_is_Some. rewrite <-Hlen. by eapply lookup_lt_Some. }
    assert (is_Some (s1 !! j)) as [xj Hxj].
    { apply lookup_lt_is_Some. rewrite <-Hlen. by eapply lookup_lt_Some. }
    destruct (decide (xi ∈ take i s1)) as [Di|Di];
      destruct (decide (xj ∈ take j s1)) as [Dj|Dj].
    + destruct (Hnew _ _ Hxi Di) as (ti & Hti & Hi').
      destruct (Hnew _ _ Hxj Dj) as (tj & Htj & Hj').
      assert (Heq : Qc_of_Z (m + 1 + Z.of_nat ti)
                    = Qc_of_Z (m + 1 + Z.of_nat tj)) by congruence.
      apply Qc_of_Z_inj in Heq.
      assert (ti = tj) as -> by lia. congruence.
    + destruct (Hnew _ _ Hxi Di) as (ti & Hti & Hi').
      rewrite (Hkeep _ _ Hxj Dj) in Hj.
      destruct (Hsmall _ _ Hxj) as (v & -> & Hv).
      assert (Heq : Qc_of_Z (m + 1 + Z.of_nat ti) = Qc_of_Z v) by congruence.
      apply Qc_of_Z_inj in Heq. lia.
    + destruct (Hnew _ _ Hxj Dj) as (tj & Htj & Hj').
      rewrite (Hkeep _ _ Hxi Di) in Hi.
      destruct (Hsmall _ _ Hxi) as (v & -> & Hv).
      assert (Heq : Qc_of_Z (m + 1 + Z.of_nat tj) = Qc_of_Z v) by congruence.
      apply Qc_of_Z_inj in Heq. lia.
    + rewrite (Hkeep _ _ Hxi Di) in Hi. rewrite (Hkeep _ _ Hxj Dj) in Hj.
      assert (xi = xj) as -> by congruence.
      destruct (Nat.lt_trichotomy i j) as [Hlt|[Heq|Hlt]]; [|done|].
      * exfalso. apply Dj. apply elem_of_take. eauto.
      * exfalso. apply Di. apply elem_of_take. eauto.
  - intros q Hq. apply list_elem_of_lookup in Hq as [i Hi].
    assert (is_Some (s1 !! i)) as [xi Hxi].
    { apply lookup_lt_is_Some. rewrite <-Hlen. by eapply lookup_lt_Some. }
    destruct (decide (xi ∈ take i s1)) as [Di|Di].
    + destruct (Hnew _ _ Hxi Di) as (ti & Hti & Hi').
      assert (q = Qc_of_Z (m + 1 + Z.of_nat ti)) as -> by congruence.
      eauto.
    + rewrite (Hkeep _ _ Hxi Di) in Hi.
      destruct (Hsmall _ _ Hxi) as (v & Hv & _).
      assert (q = Qc_of_Z v) as -> by congruence. eauto.
Qed.

(** The two branches of the fill are one. *)
Lemma stable_ids_unfold s m :
  isna_all s = false → series_max s = Some m →
  stable_ids s
  = let k := Z.of_nat (count_nan s) in
    let s1 := fill_nan s (seqZ (trunc m + 1) k) in
    astype_int
      (foldl reassign (s1, (trunc m + k)%Z) (np_where (duplicated s1))).1.
Proof.
  intros Hall Hm. unfold stable_ids. rewrite Hall, Hm. cbn [mbind option_bind].
  cbv zeta. set (k := Z.of_nat (count_nan s)).
  assert ((if bool_decide (0 < k)%Z
           then fill_nan s (seqZ (trunc m + 1) k) else s)
          = fill_nan s (seqZ (trunc m + 1) k)) as ->.
  { case_bool_decide; [done|]. symmetry. apply fill_nan_no_nan. lia. }
  assert ((if bool_decide (0 < k)%Z then (trunc m + k)%Z else trunc m)
          = (trunc m + k)%Z) as ->; [|done].
  case_bool_decide; lia.
Qed.


(** What [stable_ids] guarantees on a column [s] whose numbers are
    integers: the ids are pairwise distinct; a number that did not occur
    in an earlier row stays; every other cell (NaN, or a repeat of an
    earlier one) gets an id above every number of the input column. *)
Theorem stable_ids_spec (s : list (option Qc)) :
  (∀ q, Some q ∈ s → ∃ z, q = Qc_of_Z z) →
  ∃ out, stable_ids s = Some out ∧ length out = length s ∧ NoDup out ∧
    (∀ i v, s !! i = Some (Some (Qc_of_Z v)) →
            Some (Qc_of_Z v) ∉ take i s → out !! i = Some v) ∧
    (∀ i x o, s !! i = Some x → (x = None ∨ x ∈ take i s) →
       out !! i = Some o → ∀ w, Some (Qc_of_Z w) ∈ s → (w < o)%Z).
Proof.
  intros Hint. destruct (isna_all s) eqn:Hall.
  - exists (seqZ 1 (Z.of_nat (length s))). unfold stable_ids. rewrite Hall.
    split_and!.
    + done.
    + rewrite length_seqZ. lia.
    + apply NoDup_seqZ.
    + intros i v Hi _. exfalso. eapply isna_all_true; [done|].
      by eapply list_elem_of_lookup_2.
    + intros i x o _ _ _ w Hw. exfalso. by eapply isna_all_true.
  - destruct (isna_all_false _ Hall) as [m Hm].
    rewrite (stable_ids_unfold _ _ Hall Hm). cbv zeta.
    destruct (series_max_bound _ _ Hint Hm) as (M & -> & Hmax).
    rewrite trunc_Qc_of_Z.
    assert (Hle : ∀ q, Some q ∈ s → ∃ z, q = Qc_of_Z z ∧ (z ≤ M)%Z).
    { intros q Hq. destruct (Hint q Hq) as [z ->]. exists z.
      split; [done|]. by apply Hmax. }
    set (k := Z.of_nat (count_nan s)).
    destruct (fill_spec s M Hle) as (Hle1 & Hold & Hfresh & Hdup).
    fold k in Hle1, Hold, Hfresh, Hdup.
    pose proof (fill_no_nan s M) as Hnn. fold k in Hnn.
    set (s1 := fill_nan s (seqZ (M + 1) k)) in *.
    destruct (dedup_cases s1 (M + k)%Z) as (Hlen & Hkeep & _).
    destruct (dedup_spec s1 (M + k)%Z Hnn Hle1) as (Hnew & Hnd & Hint2).
    pose proof (dedup_no_nan s1 (M + k)%Z Hnn) as Hnn2.
    set (s2 := (foldl reassign (s1, (M + k)%Z) (np_where (duplicated s1))).1)
      in *.
    destruct (astype_int_Some s2 Hnn2) as (out & Hout & Hlen2 & Hval).
    assert (Hs2 : ∀ i o, out !! i = Some o →
              s2 !! i = Some (Some (Qc_of_Z o))).
    { intros i o Ho.
      assert (is_Some (s2 !! i)) as [[q|] Hq].
      { apply lookup_lt_is_Some. rewrite <-Hlen2. by eapply lookup_lt_Some. }
      - destruct (Hint2 q) as [z ->]; [by eapply list_elem_of_lookup_2|].
        rewrite (Hval _ _ Hq), trunc_Qc_of_Z in Ho. congruence.
      - by destruct (Hnn2 i). }
    exists out. unfold s1 in Hlen. rewrite length_fill_nan in Hlen.
    split_and!; [done|congruence| | |].
    + apply NoDup_alt. intros i j o Hi Hj.
      apply Hs2 in Hi. apply Hs2 in Hj.
      by eapply (NoDup_lookup s2).
    + intros i v Hi Hv.
      assert (s2 !! i = Some (Some (Qc_of_Z v))) as Hr.
      { apply Hkeep; [by apply Hold|]. by rewrite (Hdup _ _ Hi). }
      by rewrite (Hval _ _ Hr), trunc_Qc_of_Z.
    + intros i x o Hi Hx Ho w Hw.
      apply Hs2 in Ho. specialize (Hmax w Hw).
      destruct x as [v|].
      * destruct Hx as [?|Hx]; [done|].
        destruct (Hnew i (Some v)) as (o' & Ho' & Hlt).
        { by apply Hold. } { by rewrite (Hdup _ _ Hi). }
        assert (Heq : Qc_of_Z o = Qc_of_Z o') by congruence.
        apply Qc_of_Z_inj in Heq. unfold k in Hlt. lia.
      * destruct (Hfresh i Hi) as (o' & Ho' & Hlt & Hnot).
        rewrite (Hkeep _ _ Ho' Hnot) in Ho.
        assert (Heq : Qc_of_Z o' = Qc_of_Z o) by congruence.
        apply Qc_of_Z_inj in Heq. lia.
Qed.

(** A column of pairwise distinct integers is returned as it is. *)
Lemma stable_ids_fixed (out : list Z) :
  NoDup out → stable_ids ((λ z, Some (Qc_of_Z z)) <$> out) = Some out.
Proof.
  intros Hnd. set (s := (λ z, Some (Qc_of_Z z)) <$> out).
  destruct (isna_all s) eqn:Hall.
  - destruct out as [|v out]; [done|]. discriminate.
  - destruct (isna_all_false _ Hall) as [m Hm].
    rewrite (stable_ids_unfold _ _ Hall Hm). cbv zeta.
    assert (count_nan s = 0) as ->.
    { unfold s. clear. unfold count_nan. induction out as [|v out IH]; [done|].
      csimpl. by rewrite filter_cons_False. }
    cbn [Z.of_nat seqZ]. rewrite fill_nan_no_nan.
    2:{ unfold s. clear. unfold count_nan.
        induction out as [|v out IH]; [done|].
        csimpl. by rewrite filter_cons_False. }
    assert (np_where (duplicated s) = []) as ->.
    { apply elem_of_nil_inv. intros j. rewrite elem_of_np_where.
      intros Hj.
      assert (is_Some (s !! j)) as [x Hx].
      { apply lookup_lt_is_Some. apply lookup_lt_Some in Hj.
        unfold duplicated in Hj. by rewrite length_duplicated_from in Hj. }
      rewrite (duplicated_lookup _ _ _ Hx) in Hj.
      injection Hj as Hj. apply bool_decide_eq_true in Hj.
      apply elem_of_take in Hj as (i & Hi & Hij).
      assert (NoDup s) as Hnds.
      { unfold s. apply NoDup_fmap_2; [|done].
        intros a b H. by apply (inj Some), Qc_of_Z_inj in H. }
      pose proof (NoDup_lookup _ _ _ _ Hnds Hi Hx). lia. }
    simpl. apply astype_int_fmap.
Qed.

(** *** The table *)

Lemma add_column_mono df c c' :
  c' ∈ columns df → c' ∈ columns (add_column df c).
Proof.
  intros H. unfold add_column. case_bool_decide; [done|]. simpl.
  apply elem_of_app. by left.
Qed.

Lemma add_column_elem df c : c ∈ columns (add_column df c).
Proof.
  unfold add_column. case_bool_decide; [done|]. simpl.
  apply elem_of_app. right. by apply list_elem_of_singleton.
Qed.

Lemma foldl_add_column_mono cs df c' :
  c' ∈ columns df → c' ∈ columns (foldl add_column df cs).
Proof.
  revert df. induction cs as [|c cs IH]; intros df H; simpl; [done|].
  apply IH. by apply add_column_mono.
Qed.

Lemma foldl_add_column_elem cs df c :
  c ∈ cs → c ∈ columns (foldl add_column df cs).
Proof.
  revert df. induction cs as [|c0 cs IH]; intros df H; simpl.
  - by apply elem_of_nil in H.
  - apply elem_of_cons in H as [->|H]; [|by apply IH].
    apply foldl_add_column_mono, add_column_elem.
Qed.

Lemma foldl_add_column_id cs df :
  (∀ c, c ∈ cs → c ∈ columns df) → foldl add_column df cs = df.
Proof.
  induction cs as [|c cs IH]; intros H; simpl; [done|].
  assert (add_column df c = df) as ->.
  { unfold add_column. rewrite bool_decide_eq_true_2; [done|].
    apply H. by left. }
  apply IH. intros c' Hc'. apply H. by right.
Qed.

Lemma length_rows_add_column df c :
  length (rows (add_column df c)) = length (rows df).
Proof.
  unfold add_column. case_bool_decide; [done|]. simpl. by rewrite length_fmap.
Qed.

Lemma length_rows_foldl_add_column cs df :
  length (rows (foldl add_column df cs)) = length (rows df).
Proof.
  revert df. induction cs as [|c cs IH]; intros df; simpl; [done|].
  by rewrite IH, length_rows_add_column.
Qed.

(** Adding another column never touches the cells of a column that is
    there. *)
Lemma id_column_add_column df c :
  "ID" ∈ columns df → id_column (add_column df c) = id_column df.
Proof.
  intros H. unfold add_column. case_bool_decide as Hc; [done|].
  unfold id_column. simpl. rewrite <-list_fmap_compose.
  apply list_fmap_ext. intros i e _. simpl.
  rewrite bool_decide_eq_false_2; [done|]. by intros ->.
Qed.

Lemma id_column_foldl_add_column cs df :
  "ID" ∈ columns df → id_column (foldl add_column df cs) = id_column df.
Proof.
  revert df. induction cs as [|c cs IH]; intros df H; simpl; [done|].
  rewrite IH; [by apply id_column_add_column|by apply add_column_mono].
Qed.






Lemma fill_status_idemp s : fill_status (fill_status s) = fill_status s.
Proof.
  destruct s as [st|]; simpl; [|done].
  case_bool_decide; simpl; [done|]. by rewrite bool_decide_eq_false_2.
Qed.


Lemma norm_row_idemp e v : norm_row (norm_row e v) v = norm_row e v.
Proof.
  unfold norm_row, set_Estatus, set_ID. simpl. by rewrite fill_status_idemp.
Qed.

Lemma normalized_rows rs ids :
  (λ e, set_Estatus e (fill_status (ev_Estatus e))) <$> zip_with set_ID rs ids
  = zip_with norm_row rs ids.
Proof.
  revert ids. induction rs as [|e rs IH]; intros [|v ids]; csimpl; [done..|].
  by rewrite IH.
Qed.

Lemma zip_norm_row_idemp rs ids :
  zip_with norm_row (zip_with norm_row rs ids) ids = zip_with norm_row rs ids.
Proof.
  revert ids. induction rs as [|e rs IH]; intros [|v ids]; simpl; [done..|].
  by rewrite IH, norm_row_idemp.
Qed.

Lemma id_column_zip_norm_row rs ids :
  length ids = length rs →
  (λ e, coerce (ev_ID e)) <$> zip_with norm_row rs ids
  = (λ z, Some (Qc_of_Z z)) <$> ids.
Proof.
  revert ids. induction rs as [|e rs IH]; intros [|v ids] H; simplify_eq/=;
    [done|]. csimpl. by rewrite IH.
Qed.


Lemma ev_ID_zip_norm_row rs ids :
  length ids = length rs →
  ev_ID <$> zip_with norm_row rs ids = (λ z, Value (Qc_of_Z z)) <$> ids.
Proof.
  revert ids. induction rs as [|e rs IH]; intros [|v ids] H; simplify_eq/=;
    [done|]. csimpl. by rewrite IH.
Qed.

Lemma ensure_unfold df :
  ensure_eventlog_columns df =
  let df1 := foldl add_column df need_cols in
  ids ← stable_ids (id_column df1);
  Some {| columns := columns df1; rows := zip_with norm_row (rows df1) ids |}.
Proof.
  unfold ensure_eventlog_columns. cbv zeta.
  generalize (foldl add_column df need_cols). intros df1.
  destruct (stable_ids _) as [ids|]; simpl; [|done].
  by rewrite normalized_rows.
Qed.

Lemma ensure_via df df1 ids :
  foldl add_column df need_cols = df1 →
  stable_ids (id_column df1) = Some ids →
  ensure_eventlog_columns df
  = Some {| columns := columns df1; rows := zip_with norm_row (rows df1) ids |}.
Proof.
  intros Hdf Hids. rewrite ensure_unfold. cbv zeta. rewrite Hdf, Hids.
  reflexivity.
Qed.

(** A table that has every column, with clean ids and statuses, is returned
    as it is. *)
Lemma ensure_fixed cols rs out :
  (∀ c, c ∈ need_cols → c ∈ cols) →
  length out = length rs → NoDup out →
  ensure_eventlog_columns {| columns := cols; rows := zip_with norm_row rs out |}
  = Some {| columns := cols; rows := zip_with norm_row rs out |}.
Proof.
  intros Hcols Hlen Hnd.
  rewrite (ensure_via _ {| columns := cols; rows := zip_with norm_row rs out |} out).
  - cbn [rows columns]. by rewrite zip_norm_row_idemp.
  - by apply foldl_add_column_id.
  - unfold id_column. cbn [rows].
    rewrite (id_column_zip_norm_row _ _ Hlen). by apply stable_ids_fixed.
Qed.


(** *** What the normaliser guarantees *)

Lemma small_integers_integers s :
  small_integers s → ∀ q, Some q ∈ s → ∃ z, q = Qc_of_Z z.
Proof. intros H q Hq. destruct (H q Hq) as (z & -> & _). eauto. Qed.

(** X1. On a table whose ids are integers (below 2^53, where float64 holds
    them), the claim of the specification holds: [ensure_eventlog_columns]
    returns a table whose id column holds pairwise distinct integers; a row
    whose id is a number not seen in an earlier row keeps it; every other row
    (id missing, not a number, or a repeat of an earlier row's id) gets an id
    strictly greater than every id of the raw column, hence than its maximum.
    The raw column [s] is the "ID" column as the normaliser reads it: the
    table's own when it has one. *)
Theorem integer_ids_unique_and_stable (df : table) :
  let s := id_column (foldl add_column df need_cols) in
  small_integers s →
  ("ID" ∈ columns df → s = id_column df) ∧
  ∃ df' out,
    ensure_eventlog_columns df = Some df' ∧
    ev_ID <$> rows df' = (λ z, Value (Qc_of_Z z)) <$> out ∧
    length out = length (rows df) ∧
    NoDup out ∧
    (∀ i v, s !! i = Some (Some (Qc_of_Z v)) →
            Some (Qc_of_Z v) ∉ take i s → out !! i = Some v) ∧
    (∀ i x o, s !! i = Some x → x = None ∨ x ∈ take i s →
       out !! i = Some o → ∀ w, Some (Qc_of_Z w) ∈ s → (w < o)%Z).
Proof.
  cbv zeta. remember (foldl add_column df need_cols) as df1 eqn:Hdf1.
  symmetry in Hdf1. intros Hsmall. split.
  - intros HID. rewrite <-Hdf1. by apply id_column_foldl_add_column.
  - destruct (stable_ids_spec (id_column df1) (small_integers_integers _ Hsmall))
      as (out & Hout & Hlen & Hnd & Hkeep & Hnew).
    assert (length out = length (rows df1)) as Hlen1.
    { rewrite Hlen. unfold id_column. by rewrite length_fmap. }
    exists {| columns := columns df1;
              rows := zip_with norm_row (rows df1) out |}, out.
    split_and!.
    + by apply ensure_via.
    + cbn [rows]. by apply ev_ID_zip_norm_row.
    + rewrite Hlen1, <-Hdf1. apply length_rows_foldl_add_column.
    + done.
    + done.
    + done.
Qed.

Lemma repeated_ids_small :
  small_integers (id_column (foldl add_column repeated_ids need_cols)).
Proof.
  assert (id_column (foldl add_column repeated_ids need_cols)
          = [Some (Qc_of_Z 3); Some (Qc_of_Z 3); None; Some (Qc_of_Z 7)])
    as -> by by vm_compute.
  intros q Hq. repeat (apply elem_of_cons in Hq as [Hq|Hq];
    [first [by apply (inj Some) in Hq as ->; eexists; split;
               [reflexivity|vm_compute] | done]|]).
  by apply elem_of_nil in Hq.
Defined.

Lemma integer_ids_unique_and_stable_witness :
  ∃ df' out,
    ensure_eventlog_columns repeated_ids = Some df' ∧
    ev_ID <$> rows df' = (λ z, Value (Qc_of_Z z)) <$> out ∧
    length out = 4 ∧ NoDup out ∧
    stable_ids (id_column repeated_ids) = Some [3; 9; 8; 7]%Z.
Proof.
  destruct (integer_ids_unique_and_stable repeated_ids repeated_ids_small)
    as (_ & df' & out & H1 & H2 & H3 & H4 & _).
  exists df', out. split_and!; [done..|]. by vm_compute.
Defined.

(** X2. On a table whose ids are integers (below 2^53) the normaliser is
    idempotent: it returns a table, and applied to that table it returns it
    again, with the same columns, the same ids and the same statuses. *)
Theorem integer_ids_idempotent (df : table) :
  small_integers (id_column (foldl add_column df need_cols)) →
  ∃ df', ensure_eventlog_columns df = Some df' ∧
         ensure_eventlog_columns df' = Some df'.
Proof.
  remember (foldl add_column df need_cols) as df1 eqn:Hdf1.
  symmetry in Hdf1. intros Hsmall.
  destruct (stable_ids_spec (id_column df1) (small_integers_integers _ Hsmall))
    as (out & Hout & Hlen & Hnd & _ & _).
  assert (length out = length (rows df1)) as Hlen1.
  { rewrite Hlen. unfold id_column. by rewrite length_fmap. }
  exists {| columns := columns df1; rows := zip_with norm_row (rows df1) out |}.
  split.
  - by apply ensure_via.
  - apply ensure_fixed; [|done..].
    intros c Hc. rewrite <-Hdf1. by apply foldl_add_column_elem.
Qed.

Lemma integer_ids_idempotent_witness :
  ∃ df', ensure_eventlog_columns repeated_ids = Some df' ∧
         ensure_eventlog_columns df' = Some df'.
Proof. exact (integer_ids_idempotent repeated_ids repeated_ids_small). Defined.





(** *** A log without ids *)

Lemma foldl_add_column_cons c cs df :
  foldl add_column df (c :: cs) = foldl add_column (add_column df c) cs.
Proof. reflexivity. Qed.

Lemma id_column_blank df :
  "ID" ∉ columns df ∨ (∀ e, e ∈ rows df → coerce (ev_ID e) = None) →
  id_column (foldl add_column df need_cols)
  = replicate (length (rows df)) None.
Proof.
  intros H.
  assert (Hall : ∀ rs : list event,
            (∀ e, e ∈ rs → coerce (ev_ID e) = None) →
            (λ e, coerce (ev_ID e)) <$> rs = replicate (length rs) None).
  { induction rs as [|e rs IH]; intros Hrs; csimpl; [done|].
    rewrite (Hrs e) by left. f_equal. apply IH. intros ??. apply Hrs.
    by right. }
  destruct (decide ("ID" ∈ columns df)) as [HID|HID].
  - rewrite id_column_foldl_add_column by done.
    apply Hall. by destruct H.
  - unfold need_cols. rewrite foldl_add_column_cons.
    rewrite id_column_foldl_add_column by apply add_column_elem.
    unfold add_column. rewrite bool_decide_eq_false_2 by done.
    unfold id_column. cbn [rows]. rewrite <-list_fmap_compose.
    rewrite <-(length_fmap (set_nan "ID")), list_fmap_compose.
    apply Hall. intros e (e0 & -> & _)%list_elem_of_fmap. done.
Qed.

Lemma isna_all_replicate n : isna_all (replicate n None) = true.
Proof. induction n as [|n IH]; [done|]. exact IH. Qed.

(** X6. A log that has no "ID" column, or no id that is a number, is numbered
    1, 2, 3, ... in row order. *)
Theorem blank_ids_numbered (df : table) :
  "ID" ∉ columns df ∨ (∀ e, e ∈ rows df → coerce (ev_ID e) = None) →
  ∃ df', ensure_eventlog_columns df = Some df' ∧
         ev_ID <$> rows df'
         = (λ z, Value (Qc_of_Z z)) <$> seqZ 1 (Z.of_nat (length (rows df))).
Proof.
  intros H. pose proof (id_column_blank df H) as Hids.
  remember (foldl add_column df need_cols) as df1 eqn:Hdf1.
  symmetry in Hdf1.
  assert (Hlen : length (rows df1) = length (rows df)).
  { rewrite <-Hdf1. apply length_rows_foldl_add_column. }
  assert (Hst : stable_ids (id_column df1)
                = Some (seqZ 1 (Z.of_nat (length (rows df))))).
  { rewrite Hids. unfold stable_ids. rewrite isna_all_replicate.
    by rewrite length_replicate. }
  eexists. split; [by apply (ensure_via df df1 _ Hdf1 Hst)|].
  cbn [rows]. apply ev_ID_zip_norm_row. rewrite length_seqZ. lia.
Qed.

Lemma blank_ids_numbered_witness :
  ∃ df', ensure_eventlog_columns
           {| columns := ["Fecha"]; rows := [blank_event; blank_event] |}
         = Some df' ∧
         ev_ID <$> rows df' = [Value (Qc_of_Z 1); Value (Qc_of_Z 2)].
Proof.
  apply (blank_ids_numbered
           {| columns := ["Fecha"]; rows := [blank_event; blank_event] |}).
  left. cbn [columns]. intros Hin.
  apply list_elem_of_singleton in Hin. discriminate Hin.
Defined.

(** *** The claims on the normaliser *)

(** The example of the specification: of the ids 3, 3, blank and 7, the
    first 3 and the 7 are kept, the blank takes 8 and the second 3 takes
    9; a blank status becomes "Pendiente".  A second pass changes
    nothing. *)
Example ids_3_3_blank_7 :
  ensure_eventlog_columns repeated_ids = Some (normalised repeated_ids) ∧
  ids_of repeated_ids = [Some 3; Some 3; None; Some 7]%Z ∧
  ids_of (normalised repeated_ids) = [Some 3; Some 9; Some 8; Some 7]%Z ∧
  status_column (normalised repeated_ids)
  = [Some "Pendiente"; Some "Pendiente"; Some "Pendiente"; Some "Efectuado"] ∧
  ensure_eventlog_columns (normalised repeated_ids)
  = Some (normalised repeated_ids).
Proof. split_and!; by vm_compute. Qed.

(** C2, on a table the program can receive: the ids 3 and 3.5 are two
    numbers, so that no row is flagged as a duplicate, and [astype(int)]
    then cuts 3.5 to 3.  The normaliser returns the ids 3 and 3: the id
    column is not unique, and the second row did not keep its id. *)
Theorem ensure_leaves_duplicate_ids :
  (λ x : option Qc, this <$> x) <$> id_column fractional_ids
  = [Some (3 # 1); Some (7 # 2)]%Q ∧
  duplicated (id_column fractional_ids) = [false; false] ∧
  stable_ids (id_column fractional_ids) = Some [3; 3]%Z ∧
  ensure_eventlog_columns fractional_ids
  = Some (normalised fractional_ids) ∧
  ids_of (normalised fractional_ids) = [Some 3; Some 3]%Z ∧
  ¬ NoDup (ids_of (normalised fractional_ids)).
Proof.
  split_and!; try by vm_compute.
  assert (ids_of (normalised fractional_ids) = [Some 3; Some 3]%Z) as ->
    by by vm_compute.
  intros [Hin _]%NoDup_cons. apply Hin. by left.
Qed.

(** C10, on the same table: a second pass of the normaliser over the
    table the first pass returned finds the two ids 3 and gives the
    second row the id 4. *)
Theorem ensure_not_idempotent :
  ensure_eventlog_columns fractional_ids
  = Some (normalised fractional_ids) ∧
  ensure_eventlog_columns (normalised fractional_ids)
  = Some (normalised (normalised fractional_ids)) ∧
  ids_of (normalised fractional_ids) = [Some 3; Some 3]%Z ∧
  ids_of (normalised (normalised fractional_ids)) = [Some 3; Some 4]%Z ∧
  normalised (normalised fractional_ids) ≠ normalised fractional_ids.
Proof.
  split_and!; try by vm_compute.
Qed.

End NormalizerFacts.


Module CalendarFacts.
Import Calendar Samples.

(** Linear arithmetic with division and remainder by constants. *)
Ltac zlia := Z.div_mod_to_equations; lia.

Lemma digit_inj x y :
  (0 ≤ x < 10)%Z → (0 ≤ y < 10)%Z → digit x = digit y → x = y.
Proof.
  intros Hx Hy H. unfold digit in H.
  apply (f_equal N_of_ascii) in H.
  rewrite !N_ascii_embedding in H by lia. lia.
Qed.

Lemma pad2_inj x y :
  (0 ≤ x < 100)%Z → (0 ≤ y < 100)%Z → pad2 x = pad2 y → x = y.
Proof.
  intros Hx Hy H. unfold pad2 in H. injection H as H1 H2.
  apply digit_inj in H1; [|zlia..]. apply digit_inj in H2; [|zlia..]. zlia.
Qed.

Lemma pad4_inj x y :
  (0 ≤ x < 10000)%Z → (0 ≤ y < 10000)%Z → pad4 x = pad4 y → x = y.
Proof.
  intros Hx Hy H. unfold pad4, pad2 in H. injection H as H1 H2 H3 H4.
  apply digit_inj in H1; [|zlia..]. apply digit_inj in H2; [|zlia..].
  apply digit_inj in H3; [|zlia..]. apply digit_inj in H4; [|zlia..]. zlia.
Qed.


Lemma pad2_app_inj x y s t :
  (0 ≤ x < 100)%Z → (0 ≤ y < 100)%Z →
  pad2 x +:+ s = pad2 y +:+ t → x = y ∧ s = t.
Proof.
  intros Hx Hy H. unfold pad2 in H. simpl in H. injection H as H1 H2 H3.
  split; [|done]. apply pad2_inj; [done..|]. unfold pad2. by rewrite H1, H2.
Qed.

Lemma pad4_app_inj x y s t :
  (0 ≤ x < 10000)%Z → (0 ≤ y < 10000)%Z →
  pad4 x +:+ s = pad4 y +:+ t → x = y ∧ s = t.
Proof.
  intros Hx Hy H. unfold pad4, pad2 in H. simpl in H.
  injection H as H1 H2 H3 H4 H5.
  split; [|done]. apply pad4_inj; [done..|].
  unfold pad4, pad2. by rewrite H1, H2, H3, H4.
Qed.

Lemma T_app_inj s t : "T" +:+ s = "T" +:+ t → s = t.
Proof. simpl. by intros [=]. Qed.

Lemma days_in_month_bound y m : (28 ≤ days_in_month y m ≤ 31)%Z.
Proof.
  unfold days_in_month.
  repeat (case_match; try lia).
Qed.

(** The basic format spells an instant without loss. *)
Lemma strftime_basic_inj a b :
  valid_datetime a → valid_datetime b →
  strftime_basic a = strftime_basic b → a = b.
Proof.
  destruct a as [[ya ma da] [ha mia sa]], b as [[yb mb db] [hb mib sb]].
  unfold valid_datetime, valid_date, valid_time, strftime_basic. simpl.
  intros [(Hy & Hm & Hd) (Hh & Hmi & Hs)] [(Hy' & Hm' & Hd') (Hh' & Hmi' & Hs')] H.
  pose proof (days_in_month_bound ya ma). pose proof (days_in_month_bound yb mb).
  apply pad4_app_inj in H as [-> H]; [|lia..].
  apply pad2_app_inj in H as [-> H]; [|lia..].
  apply pad2_app_inj in H as [-> H]; [|lia..].
  apply T_app_inj in H.
  apply pad2_app_inj in H as [-> H]; [|lia..].
  apply pad2_app_inj in H as [-> H]; [|lia..].
  apply pad2_inj in H as ->; [done|lia..].
Qed.

Lemma strftime_iso_nonempty dt : strftime_iso dt ≠ "".
Proof. unfold strftime_iso, pad4. simpl. discriminate. Qed.

Lemma datetime_compare_refl a : datetime_compare a a = Eq.
Proof. unfold datetime_compare. by rewrite !Z.compare_refl. Qed.

Lemma datetime_le_refl a : datetime_le a a = true.
Proof. unfold datetime_le. by rewrite datetime_compare_refl. Qed.

(** Truncation to the minute, as [strftime("%H:%M")] then [strptime] do. *)
Lemma strptime_strftime_HM t :
  strptime_HM (strftime_HM t) = mkTime (hour t) (minute t) 0.
Proof. done. Qed.

(** *** Linear time *)


Lemma time_of_seconds_valid s :
  (0 ≤ s < 86400)%Z → valid_time (time_of_seconds s).
Proof. intros H. unfold valid_time, time_of_seconds. simpl. zlia. Qed.






Lemma length_append s t :
  String.length (s +:+ t) = String.length s + String.length t.
Proof. induction s as [|c s IH]; simpl; [done|]. by rewrite IH. Qed.

Lemma append_inj_r s t u : s +:+ u = t +:+ u → s = t.
Proof.
  intros H.
  assert (String.length s = String.length t) as Hlen.
  { apply (f_equal String.length) in H. rewrite !length_append in H. lia. }
  revert t H Hlen. induction s as [|c s IH]; intros [|c' t] H Hlen;
    simplify_eq/=; [done|]. f_equal. by apply IH.
Qed.

Lemma append_inj_l u s t : u +:+ s = u +:+ t → s = t.
Proof. induction u as [|c u IH]; simpl; [done|]. intros [=]. auto. Qed.

(** *** Loops *)

(** A loop that skips rows with [continue], and may raise, keeps, in order,
    one result per row that is not skipped. *)
Lemma mapM_omap_Forall2 {A B} (f : A → option (option B)) (P : A → Prop)
    `{!∀ x, Decision (P x)} (l : list A) (k : list (option B)) :
  mapM f l = Some k →
  (∀ x y, f x = Some y → (is_Some y ↔ P x)) →
  Forall2 (λ x y, f x = Some (Some y)) (filter P l) (omap id k).
Proof.
  intros Hk Hf. apply mapM_Some in Hk.
  induction Hk as [|x oy l k Hx _ IH]; simpl; [constructor|].
  destruct oy as [y|]; simpl.
  - rewrite filter_cons_True by (eapply Hf; eauto). by constructor.
  - rewrite filter_cons_False; [done|].
    intros HP. eapply Hf in HP as [? ?]; [|done]. done.
Qed.


(** *** One row *)

Lemma start_instant_valid d r :
  valid_date d → (∀ t, coerce (ev_Hora r) = Some t → valid_time t) →
  valid_datetime (start_instant d r).
Proof.
  intros Hd Ht. split; [done|]. unfold start_instant. simpl.
  destruct (coerce (ev_Hora r)) as [t|]; simpl.
  - destruct (Ht t eq_refl) as (? & ? & ?). unfold valid_time. simpl. lia.
  - unfold valid_time. simpl. lia.
Qed.

Lemma combine_start d r :
  _combine_dt (Some d) (ev_Hora r) (10, 0)%Z = Some (start_instant d r).
Proof. unfold _combine_dt, start_instant. by destruct (coerce (ev_Hora r)). Qed.

(** The end instant both exports compute is the one [is_end_instant]
    describes. *)
Lemma end_or_default_spec d r stop :
  end_or_default (start_instant d r)
    (_combine_dt (Some d) (ev_Hora_fin r)
       (strftime_HM (dt_time (start_instant d r)))) = Some stop ↔
  is_end_instant d r stop.
Proof.
  unfold is_end_instant, end_or_default, _combine_dt. cbv zeta.
  destruct (coerce (ev_Hora_fin r)) as [t|].
  - change (strptime_HM (strftime_HM t)) with (to_minute t).
    destruct (datetime_le _ _); [done|]. split; [by intros [= <-]|by intros ->].
  - assert (strptime_HM (strftime_HM (dt_time (start_instant d r)))
            = dt_time (start_instant d r)) as ->.
    { unfold start_instant. by destruct (coerce (ev_Hora r)). }
    assert ({| dt_date := d; dt_time := dt_time (start_instant d r) |}
            = start_instant d r) as -> by done.
    by rewrite datetime_le_refl.
Qed.

Lemma fc_entry_Some od r x :
  fc_entry od r = Some (Some x) →
  ∃ d stop, od = Some d ∧
    fc_start x = Some (strftime_iso (start_instant d r)) ∧
    fc_end x = Some (strftime_iso stop) ∧
    is_end_instant d r stop.
Proof.
  unfold fc_entry, build_iso. destruct od as [d|]; [|done].
  rewrite combine_start.
  destruct (end_or_default _ _) as [stop|] eqn:Hstop; [|done].
  apply end_or_default_spec in Hstop. simpl.
  intros [= <-]. by exists d, stop.
Qed.

Lemma fc_entry_skip od r y :
  fc_entry od r = Some y → (is_Some y ↔ is_Some od).
Proof.
  unfold fc_entry, build_iso. destruct od as [d|].
  - rewrite combine_start.
    destruct (end_or_default _ _) as [stop|]; [|done]. simpl.
    intros [= <-]. split; eauto.
  - simpl. intros [= <-]. split; intros [? ?]; done.
Qed.


(** *** Order of instants *)

Lemma lex_opp cs : lex (CompOpp <$> cs) = CompOpp (lex cs).
Proof. induction cs as [|[] cs IH]; simpl; done. Qed.

Lemma datetime_compare_antisym a b :
  datetime_compare a b = CompOpp (datetime_compare b a).
Proof.
  unfold datetime_compare. rewrite <-lex_opp. cbn [fmap list_fmap].
  by rewrite <-!Z.compare_antisym.
Qed.

Lemma date_before_next_day d t t' :
  datetime_compare (mkDatetime d t) (mkDatetime (next_day d) t') = Lt.
Proof.
  destruct d as [y m d]. unfold datetime_compare, next_day. cbn [year month day].
  destruct (d <? days_in_month y m)%Z.
  - cbn [dt_date year month day lex]. rewrite !Z.compare_refl.
    assert ((d ?= d + 1)%Z = Lt) as -> by (apply Z.compare_lt_iff; lia). done.
  - destruct (m <? 12)%Z; cbn [dt_date year month day lex].
    + rewrite Z.compare_refl.
      assert ((m ?= m + 1)%Z = Lt) as -> by (apply Z.compare_lt_iff; lia).
      done.
    + assert ((y ?= y + 1)%Z = Lt) as -> by (apply Z.compare_lt_iff; lia).
      done.
Qed.

Lemma before_two_hours_later s stop :
  valid_time (dt_time s) →
  datetime_add s two_hours = Some stop →
  datetime_compare s stop = Lt.
Proof.
  destruct s as [d [h mi se]]. unfold valid_time. cbn [dt_time hour minute second].
  intros Ht. unfold datetime_add, two_hours, seconds_of_day.
  cbn [dt_time dt_date hour minute second].
  destruct (h * 3600 + mi * 60 + se + 7200 <? 86400)%Z.
  - intros [= <-]. unfold datetime_compare, time_of_seconds.
    cbn [dt_time dt_date hour minute second lex]. rewrite !Z.compare_refl.
    assert ((h ?= (h * 3600 + mi * 60 + se + 7200) / 3600)%Z = Lt) as ->; [|done].
    apply Z.compare_lt_iff. zlia.
  - destruct (is_last_day d); [done|]. intros [= <-].
    apply date_before_next_day.
Qed.



Lemma Forall2_same_left {A B C} (P : A → B → Prop) (Q : A → C → Prop)
    (l : list A) (k1 : list B) (k2 : list C) :
  Forall2 P l k1 → Forall2 Q l k2 →
  Forall2 (λ x y, ∃ a, P a x ∧ Q a y) k1 k2.
Proof.
  intros H1. revert k2. induction H1 as [|a x l k1 Hax _ IH]; intros k2 H2.
  - apply Forall2_nil_inv_l in H2 as ->. constructor.
  - apply Forall2_cons_inv_l in H2 as (y & k2' & Hay & H2 & ->).
    constructor; [by exists a|by apply IH].
Qed.

Lemma is_end_instant_functional d r stop stop' :
  is_end_instant d r stop → is_end_instant d r stop' → stop = stop'.
Proof.
  unfold is_end_instant. cbv zeta.
  destruct (coerce (ev_Hora_fin r)) as [t|];
    [destruct (datetime_le _ _)|]; congruence.
Qed.

Section Parsers.
Variable to_datetime_text : string → option date.
Variable to_datetime_column : list fecha_cell → list (option date).

Local Abbreviation to_datetime := (Calendar.to_datetime to_datetime_text).
Local Abbreviation dtstart_of := (Calendar.dtstart_of to_datetime_text).
Local Abbreviation dtend_of := (Calendar.dtend_of to_datetime_text).
Local Abbreviation valid_cells := (Calendar.valid_cells to_datetime_text).
Local Abbreviation dated := (Calendar.dated to_datetime_text).
Local Abbreviation vevent := (Calendar.vevent to_datetime_text).
Local Abbreviation ics_blocks := (Calendar.ics_blocks to_datetime_text).
Local Abbreviation ics_lines := (Calendar.ics_lines to_datetime_text).
Local Abbreviation to_ics := (Calendar.to_ics to_datetime_text).
Local Abbreviation with_parsed_column :=
  (Calendar.with_parsed_column to_datetime_column).
Local Abbreviation events_to_fullcalendar :=
  (Calendar.events_to_fullcalendar to_datetime_column).

Lemma dtstart_of_spec e d :
  to_datetime (ev_Fecha e) = Some d →
  dtstart_of e = Some (start_instant d e).
Proof.
  intros Hd. unfold Calendar.dtstart_of. rewrite Hd. apply combine_start.
Qed.

Lemma dtstart_of_None e :
  to_datetime (ev_Fecha e) = None → dtstart_of e = None.
Proof. intros Hd. unfold Calendar.dtstart_of, _combine_dt. by rewrite Hd. Qed.

Lemma dtstart_of_valid e s :
  valid_cells e → dtstart_of e = Some s → valid_datetime s.
Proof.
  intros [Hd Ht] Hs. destruct (to_datetime (ev_Fecha e)) as [d|] eqn:Ed.
  - rewrite (dtstart_of_spec _ _ Ed) in Hs. injection Hs as <-.
    apply start_instant_valid; [by apply Hd|done].
  - by rewrite (dtstart_of_None _ Ed) in Hs.
Qed.

Lemma vevent_Some utcnow r b :
  vevent utcnow r = Some (Some b) →
  ∃ d stop, to_datetime (ev_Fecha r) = Some d ∧
    b = [ "BEGIN:VEVENT";
          "UID:" +:+ uid_of (start_instant d r);
          "DTSTAMP:" +:+ strftime_basic utcnow +:+ "Z";
          "DTSTART:" +:+ strftime_basic (start_instant d r);
          "DTEND:" +:+ strftime_basic stop;
          "SUMMARY:" +:+ "Evento: " +:+ str_cell (ev_Nombre r) +:+ " - $" +:+
            format_money (ev_Precio r);
          "LOCATION:" +:+ str_cell (ev_Direccion r);
          "DESCRIPTION:" +:+ String.concat " | " (desc_parts r);
          "END:VEVENT" ] ∧
    is_end_instant d r stop.
Proof.
  unfold Calendar.vevent.
  destruct (to_datetime (ev_Fecha r)) as [d|] eqn:Ed.
  - rewrite (dtstart_of_spec _ _ Ed). unfold Calendar.dtend_of. rewrite Ed.
    destruct (end_or_default _ _) as [stop|] eqn:Hstop; [|done].
    apply end_or_default_spec in Hstop. simpl. intros [= <-].
    by exists d, stop.
  - by rewrite (dtstart_of_None _ Ed).
Qed.

Lemma vevent_skip utcnow r y :
  vevent utcnow r = Some y → (is_Some y ↔ dated r).
Proof.
  unfold Calendar.vevent, Calendar.dated.
  destruct (to_datetime (ev_Fecha r)) as [d|] eqn:Ed.
  - rewrite (dtstart_of_spec _ _ Ed).
    destruct (dtend_of _ _); [|done]. simpl. intros [= <-]. split; eauto.
  - rewrite (dtstart_of_None _ Ed). intros [= <-].
    split; intros [? ?]; done.
Qed.



(** *** The two exports, row by row *)

Lemma calendar_rows evs entries :
  events_to_fullcalendar evs = Some entries →
  Forall2 (λ rd x, fc_entry rd.2 rd.1 = Some (Some x))
          (filter (λ rd, is_Some rd.2) (with_parsed_column evs)) entries.
Proof.
  unfold Calendar.events_to_fullcalendar. case_bool_decide as Hnil.
  - intros [= <-]. subst. unfold Calendar.with_parsed_column. simpl.
    constructor.
  - destruct (mapM _ _) as [k|] eqn:Hk; [|done]. intros [= <-].
    apply (mapM_omap_Forall2 _ (λ rd, is_Some rd.2) _ _ Hk).
    intros [r od] y. apply fc_entry_skip.
Qed.

Lemma ics_rows utcnow evs blocks :
  ics_blocks utcnow evs = Some blocks →
  Forall2 (λ r b, vevent utcnow r = Some (Some b)) (filter dated evs) blocks.
Proof.
  unfold Calendar.ics_blocks.
  destruct (mapM _ _) as [k|] eqn:Hk; [|done]. intros [= <-].
  apply (mapM_omap_Forall2 _ dated _ _ Hk). intros r y. apply vevent_skip.
Qed.





Lemma vevent_uid_line utcnow e b s :
  vevent utcnow e = Some (Some b) → dtstart_of e = Some s →
  b !! 1 = Some ("UID:" +:+ uid_of s).
Proof.
  unfold Calendar.vevent. intros Hb Hs. rewrite Hs in Hb.
  destruct (dtend_of e s); [|done]. simpl in Hb. by injection Hb as <-.
Qed.

(** C9 (amended). The UID line of a VEVENT block spells the start instant
    of its event and nothing else: two exported events carry the same UID
    line exactly when they start at the same instant (date and start time
    to the minute, 10:00 by default).  The ids are unique across an export
    only among events with distinct starts. *)
Theorem uid_line_identifies_start (utcnow : datetime) (a b : event)
    (ba bb : list string) :
  vevent utcnow a = Some (Some ba) → vevent utcnow b = Some (Some bb) →
  valid_cells a → valid_cells b →
  (ba !! 1 = bb !! 1 ↔ dtstart_of a = dtstart_of b).
Proof.
  intros Ha Hb Va Vb.
  destruct (dtstart_of a) as [sa|] eqn:Ea;
    [|by unfold Calendar.vevent in Ha; rewrite Ea in Ha].
  destruct (dtstart_of b) as [sb|] eqn:Eb;
    [|by unfold Calendar.vevent in Hb; rewrite Eb in Hb].
  rewrite (vevent_uid_line _ _ _ _ Ha Ea), (vevent_uid_line _ _ _ _ Hb Eb).
  split.
  - intros H. f_equal. apply (inj Some), append_inj_l in H.
    unfold uid_of in H. apply append_inj_r in H.
    apply strftime_basic_inj;
      [exact (dtstart_of_valid a sa Va Ea)
      |exact (dtstart_of_valid b sb Vb Eb)|done].
  - by intros [= ->].
Qed.

(** *** More on the two exports *)

(** X7. Every exported event ends strictly after it starts: the end instant the
    exports compute for a dated row compares greater than its start instant,
    whatever the end time of the row. *)
Theorem end_after_start (e : event) (s stop : datetime) :
  valid_cells e → dtstart_of e = Some s → dtend_of e s = Some stop →
  datetime_compare s stop = Lt.
Proof.
  intros Hv Hs. pose proof (dtstart_of_valid _ _ Hv Hs) as [_ Ht].
  unfold Calendar.dtend_of, end_or_default.
  destruct (_combine_dt _ _ _) as [e'|]; [|by apply before_two_hours_later].
  unfold datetime_le. destruct (datetime_compare e' s) eqn:Hc;
    try by apply before_two_hours_later.
  intros [= <-]. rewrite datetime_compare_antisym, Hc. done.
Qed.

(** X8. When the reading of the "Fecha" column at once agrees with the reading
    of its cells one by one, the two exports agree: they hold the same events
    in the same order, and the start and end of a calendar entry are the ISO
    spellings of the instants on the DTSTART and DTEND lines of its VEVENT
    block. *)
Theorem exports_agree (utcnow : datetime) (evs : list event)
    (entries : list fc_event) (blocks : list (list string)) :
  to_datetime_column (ev_Fecha <$> evs) = to_datetime <$> (ev_Fecha <$> evs) →
  events_to_fullcalendar evs = Some entries →
  ics_blocks utcnow evs = Some blocks →
  Forall2 (λ x b, ∃ s stop,
             fc_start x = Some (strftime_iso s) ∧
             fc_end x = Some (strftime_iso stop) ∧
             b !! 3 = Some ("DTSTART:" +:+ strftime_basic s) ∧
             b !! 4 = Some ("DTEND:" +:+ strftime_basic stop))
          entries blocks.
Proof.
  intros Hread Hcal Hics.
  apply calendar_rows in Hcal. apply ics_rows in Hics.
  assert (Hzip : with_parsed_column evs
                 = (λ r, (r, to_datetime (ev_Fecha r))) <$> evs).
  { unfold Calendar.with_parsed_column. rewrite Hread.
    rewrite <-list_fmap_compose. clear.
    induction evs as [|r evs IH]; csimpl; [done|]. by rewrite IH. }
  rewrite Hzip in Hcal.
  assert (Hfil : filter (λ rd : event * option date, is_Some rd.2)
                   ((λ r, (r, to_datetime (ev_Fecha r))) <$> evs)
                 = (λ r, (r, to_datetime (ev_Fecha r))) <$> filter dated evs).
  { clear. induction evs as [|r evs IH]; csimpl; [done|].
    destruct (decide (dated r)) as [Hd|Hd].
    - rewrite (filter_cons_True dated) by done.
      rewrite filter_cons_True by done. csimpl. by rewrite IH.
    - rewrite (filter_cons_False dated) by done.
      rewrite filter_cons_False by done. done. }
  rewrite Hfil in Hcal. apply Forall2_fmap_l in Hcal.
  eapply Forall2_impl; [exact (Forall2_same_left _ _ _ _ _ Hcal Hics)|].
  intros x b (r & Hx & Hb). cbn [fst snd] in Hx.
  apply fc_entry_Some in Hx as (d & stop & Hd & Hs & He & Hstop).
  apply vevent_Some in Hb as (d' & stop' & Hd' & -> & Hstop').
  cbn [fst snd] in Hd, Hs, He, Hstop.
  assert (d' = d) as -> by congruence.
  rewrite (is_end_instant_functional _ _ _ _ Hstop' Hstop).
  by exists (start_instant d r), stop.
Qed.


End Parsers.



(** C8, on a row the program can receive: a booking at 23:00 on
    9999-12-31 without an end time has a date that parses, and both
    exports raise ([OverflowError] at the start plus two hours) instead of
    giving it an entry. *)
Theorem exports_raise_on_last_evening :
  to_datetime Samples.to_datetime_text (ev_Fecha last_evening)
  = Some (mkDate 9999 12 31) ∧
  valid_date (mkDate 9999 12 31) ∧
  events_to_fullcalendar Samples.to_datetime_column [last_evening] = None ∧
  to_ics Samples.to_datetime_text clock [last_evening] = None ∧
  events_to_fullcalendar Samples.to_datetime_column
    [afternoon_event; last_evening] = None ∧
  to_ics Samples.to_datetime_text clock [afternoon_event; last_evening]
  = None.
Proof.
  split_and!; try reflexivity. repeat split; by vm_compute.
Qed.

(** C8, second divergence: the calendar reads the "Fecha" column at once
    and the iCalendar export reads each cell on its own.  Of two rows dated
    "2024-03-05" and "05/03/2024", both of which parse on their own, the
    calendar shows one and the iCalendar text holds two VEVENT blocks. *)
Lemma exports_disagree_on_mixed_spellings :
  Forall (dated Samples.to_datetime_text) [iso_event; slash_event] ∧
  length <$> events_to_fullcalendar Samples.to_datetime_column
               [iso_event; slash_event] = Some 1 ∧
  length <$> ics_blocks Samples.to_datetime_text clock
               [iso_event; slash_event] = Some 2.
Proof.
  split_and!; [|reflexivity..].
  repeat constructor; by eexists.
Qed.

Lemma uid_line_identifies_start_witness :
  vevent Samples.to_datetime_text clock afternoon_event
  = Some (Some
         [ "BEGIN:VEVENT"; "UID:20240305T163000-gamebus@agenda";
           "DTSTAMP:20240101T000000Z"; "DTSTART:20240305T163000";
           "DTEND:20240305T190000"; "SUMMARY:Evento: Luis - $nan";
           "LOCATION:nan"; "DESCRIPTION:Paquete: Retro"; "END:VEVENT" ]) ∧
  (∃ bb, vevent Samples.to_datetime_text clock short_event = Some (Some bb)) ∧
  valid_cells Samples.to_datetime_text afternoon_event ∧
  valid_cells Samples.to_datetime_text short_event ∧
  ((mjoin (vevent Samples.to_datetime_text clock afternoon_event) ≫= (.!! 1))
   = (mjoin (vevent Samples.to_datetime_text clock short_event) ≫= (.!! 1))
   ↔ dtstart_of Samples.to_datetime_text afternoon_event
     = dtstart_of Samples.to_datetime_text short_event).
Proof.
  assert (Va : valid_cells Samples.to_datetime_text afternoon_event).
  { split; intros ? [= <-]; vm_compute; intuition discriminate. }
  assert (Vb : valid_cells Samples.to_datetime_text short_event).
  { split; intros ? [= <-]; vm_compute; intuition discriminate. }
  split_and!; [reflexivity|by eexists|done|done|].
  exact (uid_line_identifies_start Samples.to_datetime_text clock
           afternoon_event short_event _ _ eq_refl eq_refl Va Vb).
Defined.

(** C9, as stated, fails: two distinct bookings that start at the same
    instant are both exported, under one and the same UID. *)
Lemma same_start_same_uid :
  afternoon_event ≠ same_start_event ∧
  ics_lines Samples.to_datetime_text clock
    [afternoon_event; same_start_event] ≫= (.!! 4)
  = Some "UID:20240305T163000-gamebus@agenda" ∧
  ics_lines Samples.to_datetime_text clock
    [afternoon_event; same_start_event] ≫= (.!! 13)
  = Some "UID:20240305T163000-gamebus@agenda" ∧
  length <$> ics_blocks Samples.to_datetime_text clock
               [afternoon_event; same_start_event] = Some 2.
Proof. split_and!; [discriminate|reflexivity..]. Qed.

Lemma end_after_start_witness :
  dtstart_of Samples.to_datetime_text short_event
  = Some (mkDatetime march_5 (mkTime 10 0 0)) ∧
  dtend_of Samples.to_datetime_text short_event
           (mkDatetime march_5 (mkTime 10 0 0))
  = Some (mkDatetime march_5 (mkTime 12 0 0)) ∧
  datetime_compare (mkDatetime march_5 (mkTime 10 0 0))
                   (mkDatetime march_5 (mkTime 12 0 0)) = Lt.
Proof.
  split_and!; [reflexivity|reflexivity|].
  apply (end_after_start Samples.to_datetime_text short_event);
    [|reflexivity|reflexivity].
  split; intros ? [= <-]; vm_compute; intuition discriminate.
Defined.

Lemma exports_agree_witness :
  ∃ entries blocks,
    events_to_fullcalendar Samples.to_datetime_column
      [afternoon_event; same_start_event] = Some entries ∧
    ics_blocks Samples.to_datetime_text clock
      [afternoon_event; same_start_event] = Some blocks ∧
    Forall2 (λ x b, ∃ s stop,
               fc_start x = Some (strftime_iso s) ∧
               fc_end x = Some (strftime_iso stop) ∧
               b !! 3 = Some ("DTSTART:" +:+ strftime_basic s) ∧
               b !! 4 = Some ("DTEND:" +:+ strftime_basic stop))
            entries blocks.
Proof.
  eexists _, _. split_and!; [reflexivity|reflexivity|].
  apply (exports_agree Samples.to_datetime_text Samples.to_datetime_column
           clock [afternoon_event; same_start_event]); reflexivity.
Defined.


End CalendarFacts.


Module RollupFacts.
Import Rollup Samples.

#[local] Arguments derive : simpl never.

(** *** Float64 cells *)

Lemma round2_zero : F64.round2 F64.zero = F64.zero.
Proof. by vm_compute. Qed.

Lemma fillna0_fillna0 x : F64.fillna0 (F64.fillna0 x) = F64.fillna0 x.
Proof. by destruct x. Qed.

Lemma fillna0_notna x : F64.isna x = false → F64.fillna0 x = x.
Proof. unfold F64.fillna0. by intros ->. Qed.


(** The backfilled total of a month without events is 0.0, or NaN. *)
Lemma empty_total d :
  F64.fillna0
    (F64.add (F64.or_zero (group_sum []))
             (F64.mul (F64.of_nat 0) d)) = F64.zero.
Proof. by destruct d as [[]|[]| |[] ? ?]. Qed.

(** *** Months *)

Lemma NoDup_SPANISH_MONTHS : NoDup SPANISH_MONTHS.
Proof. apply (bool_decide_unpack _). by vm_compute. Qed.

Lemma month_to_num_lookup i m :
  SPANISH_MONTHS !! i = Some m → month_to_num m = (Z.of_nat i + 1)%Z.
Proof.
  intros H. do 12 (destruct i as [|i]; [by injection H as <-|]).
  by destruct i.
Qed.

Lemma cat_code_lookup i m :
  SPANISH_MONTHS !! i = Some m → cat_code m = i.
Proof.
  intros H. do 12 (destruct i as [|i]; [by injection H as <-|]).
  by destruct i.
Qed.

(** *** The aggregation, month by month *)

Section Aggregation.
Variables (ev : list keyed) (d : F64.float).

(** One turn of the backfill loop touches the row of its month only. *)
Lemma backfill_step_fmap (agg : list (option string * stats)) (m : string) :
  NoDup (agg.*1) →
  backfill_step ev d agg m
  = (λ a, if decide (a.1 = Some m)
          then (a.1, backfilled ev d m a.2) else a) <$> agg.
Proof.
  intros Hnd. unfold backfill_step.
  destruct (list_find _ agg) as [[idx [k s]]|] eqn:Hfind.
  - apply list_find_Some in Hfind as (Hidx & Hk & Hbefore). simpl in Hk.
    apply list_eq. intros i. rewrite list_lookup_fmap.
    destruct (decide (i = idx)) as [->|Hne].
    + rewrite list_lookup_insert_eq by by eapply lookup_lt_Some.
      rewrite Hidx. simpl. by rewrite decide_True.
    + rewrite list_lookup_insert_ne by done.
      destruct (agg !! i) as [a|] eqn:Hi; [|done]. simpl.
      rewrite decide_False; [done|]. intros Ha. apply Hne.
      eapply (NoDup_lookup _ _ _ (Some m) Hnd);
        rewrite list_lookup_fmap; [by rewrite Hi; simpl; rewrite Ha|].
      rewrite Hidx. simpl. by rewrite Hk.
  - apply list_find_None in Hfind.
    induction agg as [|a agg IH]; [done|]. csimpl.
    apply Forall_cons in Hfind as [Ha Hfind].
    apply NoDup_cons in Hnd as [_ Hnd].
    rewrite decide_False by done. f_equal. by apply IH.
Qed.

(** The whole loop: every row of a listed month is backfilled once. *)
Lemma foldl_backfill_fmap (ms : list string)
    (agg : list (option string * stats)) :
  NoDup ms → NoDup (agg.*1) →
  foldl (backfill_step ev d) agg ms
  = (λ a, match a.1 with
          | Some m =>
              if decide (m ∈ ms)
              then (a.1, backfilled ev d m a.2) else a
          | None => a
          end) <$> agg.
Proof.
  revert agg. induction ms as [|m ms IH]; intros agg Hms Hnd; simpl.
  - rewrite <-(list_fmap_id agg) at 1. apply list_fmap_ext.
    by intros i [[k|] s] _.
  - apply NoDup_cons in Hms as [Hm Hms].
    rewrite backfill_step_fmap by done.
    rewrite IH; [|done|].
    2:{ rewrite <-list_fmap_compose.
        assert (agg.*1 = (fst ∘ (λ a, if decide (a.1 = Some m)
          then (a.1, backfilled ev d m a.2) else a)) <$> agg) as <-;
          [|done].
        apply list_fmap_ext. intros i a _. simpl. by case_decide. }
    rewrite <-list_fmap_compose. apply list_fmap_ext.
    intros i [[k|] s] _; simpl.
    + destruct (decide (Some k = Some m)) as [[= ->]|Hne]; simpl.
      * rewrite decide_False by done. rewrite decide_True; [done|]. by left.
      * destruct (decide (k ∈ ms)) as [Hin|Hout].
        -- rewrite decide_True; [done|]. by right.
        -- rewrite decide_False; [done|].
           intros [->|?]%elem_of_cons; [done|done].
    + done.
Qed.

Lemma elem_of_keys_group (k : option string) :
  k ∈ ev.*1 ↔ group ev k ≠ [].
Proof.
  unfold group. induction ev as [|e l IH]; csimpl.
  - split; [by intros ?%elem_of_nil|done].
  - rewrite elem_of_cons, IH.
    destruct (decide (e.1 = k)) as [He|He].
    + rewrite filter_cons_True by done. split; [done|]. by left.
    + rewrite filter_cons_False by done. split; [|by right].
      by intros [->|?].
Qed.

Lemma fst_groupby_agg : (groupby_agg ev).*1 = remove_dups (ev.*1).
Proof.
  unfold groupby_agg. rewrite <-list_fmap_compose.
  rewrite <-(list_fmap_id (remove_dups _)) at 2.
  by apply list_fmap_ext.
Qed.

End Aggregation.

Lemma filter_fmap_key (T : option string → option string * stats)
    (keys : list (option string)) (k0 : option string) :
  (∀ k, (T k).1 = k) → NoDup keys →
  filter (λ a, a.1 = k0) (T <$> keys)
  = if decide (k0 ∈ keys) then [T k0] else [].
Proof.
  intros HT. induction keys as [|k keys IH]; intros Hnd.
  - by destruct (decide (k0 ∈ [])) as [?%elem_of_nil|].
  - apply NoDup_cons in Hnd as [Hk Hnd]. specialize (IH Hnd).
    rewrite fmap_cons.
    destruct (decide (k = k0)) as [->|Hne].
    + rewrite filter_cons_True by apply HT. rewrite IH.
      destruct (decide (k0 ∈ keys)); [done|].
      destruct (decide (k0 ∈ k0 :: keys)) as [|Hn]; [done|].
      exfalso. apply Hn. by left.
    + rewrite filter_cons_False by by rewrite HT. rewrite IH.
      destruct (decide (k0 ∈ keys)) as [Hin|Hout];
        destruct (decide (k0 ∈ k :: keys)) as [Hin'|Hout']; try done.
      * exfalso. apply Hout'. by right.
      * apply elem_of_cons in Hin' as [->|?]; done.
Qed.

Lemma bind_singleton {A B} (f : A → B) (l : list A) :
  (l ≫= λ x, [f x]) = f <$> l.
Proof. induction l as [|x l IH]; csimpl; [done|]. by rewrite IH. Qed.

Lemma bind_ext_in {A B} (f g : A → list B) (l : list A) :
  (∀ x, x ∈ l → f x = g x) → l ≫= f = l ≫= g.
Proof.
  induction l as [|x l IH]; intros H; csimpl; [done|].
  rewrite H by by left. rewrite IH; [done|]. intros y Hy. apply H. by right.
Qed.

(** The rows [base] is created with derive to the rows of a month the
    merge finds no events for. *)
Lemma derive_base_stats g m :
  derive g (m, base_stats) = derive g (m, nan_stats).
Proof. reflexivity. Qed.

Lemma insert_row_perm r l : insert_row r l ≡ₚ r :: l.
Proof.
  induction l as [|x l IH]; simpl; [done|].
  case_match; [done|]. rewrite IH. apply Permutation_swap.
Qed.

Lemma sort_values_Mes_perm l : sort_values_Mes l ≡ₚ l.
Proof.
  induction l as [|x l IH]; simpl; [done|].
  by rewrite insert_row_perm, IH.
Qed.

(** Rows already in month order are left in place. *)
Lemma sort_values_Mes_sorted l :
  Sorted (λ a b, cat_code (m_Mes a) ≤ cat_code (m_Mes b)) l →
  sort_values_Mes l = l.
Proof.
  induction 1 as [|x l Hl IH Hhd]; simpl; [done|].
  fold (sort_values_Mes l). rewrite IH.
  destruct Hhd as [|y l' Hxy]; simpl; [done|].
  by rewrite (proj2 (Nat.leb_le _ _) Hxy).
Qed.

Lemma Sorted_months (G : string → monthly_row) :
  (∀ m, m_Mes (G m) = m) →
  Sorted (λ a b, cat_code (m_Mes a) ≤ cat_code (m_Mes b))
         (G <$> SPANISH_MONTHS).
Proof.
  intros HG. unfold SPANISH_MONTHS. csimpl.
  repeat (constructor; [|try constructor; rewrite !HG; vm_compute; lia]).
  constructor.
Qed.

(** *** The joins *)

Lemma elem_of_funnel_step funnel base r :
  r ∈ funnel_step funnel base →
  ∃ b x, b ∈ base ∧ r = set_Reservas_Meta b x ∧
    match funnel with
    | Some ((_ :: _) as tmp) =>
        (∃ f, f ∈ tmp ∧ f_Mes f = Some (m_Mes b)
              ∧ x = booking_ratio b (f_Reservas f))
        ∨ ((∀ f, f ∈ tmp → f_Mes f ≠ Some (m_Mes b))
           ∧ x = booking_ratio b F64.nan)
    | _ => x = F64.zero
    end.
Proof.
  unfold funnel_step. destruct funnel as [[|f0 tmp]|].
  - intros (b & -> & Hb)%list_elem_of_fmap. by exists b, F64.zero.
  - intros (b & Hr & Hb)%list_elem_of_bind.
    apply list_elem_of_fmap in Hr as (res & -> & Hres).
    exists b, (booking_ratio b res). split_and!; [done..|].
    destruct (filter _ (f0 :: tmp)) as [|f1 l] eqn:Hfil.
    + right. apply list_elem_of_singleton in Hres as ->. split; [|done].
      intros f Hf Hm.
      assert (f ∈ filter (λ f, f_Mes f = Some (m_Mes b)) (f0 :: tmp)) as Hin
        by by apply list_elem_of_filter.
      rewrite Hfil in Hin. by apply elem_of_nil in Hin.
    + left. apply list_elem_of_fmap in Hres as (f & -> & Hf).
      rewrite <-Hfil in Hf. apply list_elem_of_filter in Hf as [Hm Hf].
      by exists f.
  - intros (b & -> & Hb)%list_elem_of_fmap. by exists b, F64.zero.
Qed.

Lemma elem_of_reviews_step monthly base base' r :
  reviews_step monthly base = Some base' → r ∈ base' →
  ∃ b v, b ∈ base ∧ r = set_Resenas_nuevas b v.
Proof.
  unfold reviews_step. destruct monthly as [[|x0 sheet]|].
  - intros [= <-] Hr. exists r, (m_Resenas_nuevas r). split; [done|].
    by destruct r.
  - case_bool_decide; [|done]. intros [= <-].
    intros (b & -> & Hb)%list_elem_of_fmap. eauto.
  - intros [= <-] Hr. exists r, (m_Resenas_nuevas r). split; [done|].
    by destruct r.
Qed.

Lemma filter_key_unique {A} (key : A → option string) (l : list A) k :
  NoDup (key <$> l) →
  filter (λ x, key x = k) l = [] ∨ ∃ x, filter (λ x, key x = k) l = [x].
Proof.
  induction l as [|x l IH]; intros Hnd; [by left|].
  rewrite fmap_cons in Hnd. apply NoDup_cons in Hnd as [Hx Hnd].
  destruct (decide (key x = k)) as [Hk|Hk].
  - right. exists x. rewrite filter_cons_True by done. f_equal.
    destruct (filter (λ x, key x = k) l) as [|y l'] eqn:Hf; [done|].
    exfalso. apply Hx.
    assert (y ∈ filter (λ x, key x = k) l) as Hy by (rewrite Hf; by left).
    apply list_elem_of_filter in Hy as [Hy1 Hy2].
    apply list_elem_of_fmap. exists y. by rewrite Hy1.
  - rewrite filter_cons_False by done. by apply IH.
Qed.

(** With at most one Funnel row per month the merge keeps one row per
    month. *)
Lemma funnel_step_unique funnel base :
  match funnel with Some tmp => NoDup (f_Mes <$> tmp) | None => True end →
  ∃ ρ, funnel_step funnel base = (λ b, set_Reservas_Meta b (ρ b)) <$> base.
Proof.
  intros Hnd. unfold funnel_step. destruct funnel as [[|f0 tmp]|].
  - by exists (λ _, F64.zero).
  - exists (λ b, booking_ratio b
               (match filter (λ f, f_Mes f = Some (m_Mes b)) (f0 :: tmp) with
                | [] => F64.nan
                | f :: _ => f_Reservas f
                end)).
    rewrite <-bind_singleton. apply bind_ext_in. intros b _.
    destruct (filter_key_unique f_Mes (f0 :: tmp) (Some (m_Mes b)) Hnd)
      as [->|[f ->]]; done.
  - by exists (λ _, F64.zero).
Qed.


(** *** Months and settings *)

(** X10. [month_to_num] and [MONTH_NAME_MAP] are inverse to each other on the
    twelve names and the numbers 1 to 12; any other text has number 0, and any
    other number has no name. *)
Theorem month_to_num_round_trip :
  (∀ m, m ∈ SPANISH_MONTHS →
        (1 ≤ month_to_num m ≤ 12)%Z ∧
        MONTH_NAME_MAP (month_to_num m) = Some m) ∧
  (∀ n m, MONTH_NAME_MAP n = Some m →
          (1 ≤ n ≤ 12)%Z ∧ m ∈ SPANISH_MONTHS ∧ month_to_num m = n) ∧
  (∀ s, s ∉ SPANISH_MONTHS ↔ month_to_num s = 0%Z).
Proof.
  split_and!.
  - intros m Hm. apply list_elem_of_lookup in Hm as [i Hi].
    rewrite (month_to_num_lookup _ _ Hi).
    pose proof (lookup_lt_Some _ _ _ Hi) as Hlt. simpl in Hlt.
    split; [lia|]. unfold MONTH_NAME_MAP.
    rewrite (proj2 (Z.leb_le 1 _)) by lia.
    by replace (Z.to_nat (Z.of_nat i + 1 - 1)) with i by lia.
  - intros n m. unfold MONTH_NAME_MAP.
    destruct (Z.leb_spec 1 n) as [Hn|]; [|done]. intros Hi.
    pose proof (lookup_lt_Some _ _ _ Hi) as Hlt. simpl in Hlt.
    split; [lia|]. split; [by eapply list_elem_of_lookup_2|].
    rewrite (month_to_num_lookup _ _ Hi). lia.
  - intros s. unfold month_to_num.
    destruct (list_find _ SPANISH_MONTHS) as [[i m]|] eqn:Hf.
    + apply list_find_Some in Hf as (Hi & -> & _). split; [|lia].
      intros Hs. destruct Hs. by eapply list_elem_of_lookup_2.
    + apply list_find_None in Hf. split; [done|]. intros _ Hs.
      rewrite Forall_forall in Hf. by apply (Hf s).
Qed.

(** X11. The first row of the Assumptions sheet that carries the name decides:
    its number is returned, a blank cell gives NaN, text gives the default;
    rows further down with the same name are never read. *)
Theorem get_assumption_first_match (dfs : Dfs) (name : string)
    (default : F64.float) (pre post : list assumption) (a : assumption) :
  Assumptions dfs = Some (pre ++ a :: post)%list →
  (∀ x, x ∈ pre → a_Variable x ≠ Some name) →
  a_Variable a = Some name →
  get_assumption dfs name default
  = match a_Valor a with
    | Value q => q
    | Missing => F64.nan
    | Garbage _ => default
    end.
Proof.
  intros HA Hpre Ha. unfold get_assumption. rewrite HA.
  rewrite filter_app, filter_cons_True by done.
  assert (filter (λ x, a_Variable x = Some name) pre = []) as ->; [|done].
  clear HA. induction pre as [|x pre IH]; [done|].
  rewrite filter_cons_False by (apply Hpre; by left).
  apply IH. intros y Hy. apply Hpre. by right.
Qed.

(** X12. A name that no row carries, or a sheet without the two columns, gives
    the caller's default. *)
Theorem get_assumption_default (dfs : Dfs) (name : string)
    (default : F64.float) :
  (∀ df, Assumptions dfs = Some df →
         ∀ x, x ∈ df → a_Variable x ≠ Some name) →
  get_assumption dfs name default = default.
Proof.
  intros H. unfold get_assumption.
  destruct (Assumptions dfs) as [df|]; [|done].
  assert (filter (λ x, a_Variable x = Some name) df = []) as ->; [|done].
  specialize (H df eq_refl).
  induction df as [|x df IH]; [done|].
  rewrite filter_cons_False by (apply H; by left).
  apply IH. intros y Hy. apply H. by right.
Qed.

(** *** The months of the summary *)

Lemma reviews_step_Mes monthly base base' :
  reviews_step monthly base = Some base' → m_Mes <$> base' = m_Mes <$> base.
Proof.
  unfold reviews_step. destruct monthly as [[|x0 sheet]|].
  - by intros [= <-].
  - case_bool_decide; [|done]. intros [= <-].
    rewrite <-list_fmap_compose. by apply list_fmap_ext.
  - by intros [= <-].
Qed.

Lemma funnel_step_covers funnel base b :
  b ∈ base → ∃ r, r ∈ funnel_step funnel base ∧ m_Mes r = m_Mes b.
Proof.
  intros Hb. unfold funnel_step. destruct funnel as [[|f0 tmp]|].
  - exists (set_Reservas_Meta b F64.zero). split; [|done].
    apply list_elem_of_fmap. eauto.
  - destruct (filter (λ f, f_Mes f = Some (m_Mes b)) (f0 :: tmp))
      as [|f1 l] eqn:Hfil.
    + exists (set_Reservas_Meta b (booking_ratio b F64.nan)). split; [|done].
      apply list_elem_of_bind. exists b. split; [|done]. rewrite Hfil.
      apply list_elem_of_fmap. exists F64.nan. split; [done|left].
    + exists (set_Reservas_Meta b (booking_ratio b (f_Reservas f1))).
      split; [|done].
      apply list_elem_of_bind. exists b. split; [|done]. rewrite Hfil.
      apply list_elem_of_fmap. exists (f_Reservas f1). split; [done|left].
  - exists (set_Reservas_Meta b F64.zero). split; [|done].
    apply list_elem_of_fmap. eauto.
Qed.

Lemma insert_row_Sorted r l :
  Sorted (λ a b, cat_code (m_Mes a) ≤ cat_code (m_Mes b)) l →
  Sorted (λ a b, cat_code (m_Mes a) ≤ cat_code (m_Mes b)) (insert_row r l).
Proof.
  induction 1 as [|x l Hl IH Hhd]; simpl.
  - by repeat constructor.
  - destruct (cat_code (m_Mes r) <=? cat_code (m_Mes x)) eqn:Hle.
    + apply Nat.leb_le in Hle. by repeat constructor.
    + apply Nat.leb_gt in Hle. constructor; [done|].
      destruct Hhd as [|y l' Hxy]; simpl.
      * constructor. lia.
      * destruct (cat_code (m_Mes r) <=? cat_code (m_Mes y));
          constructor; [lia|done].
Qed.

Lemma sort_values_Mes_Sorted l :
  Sorted (λ a b, cat_code (m_Mes a) ≤ cat_code (m_Mes b)) (sort_values_Mes l).
Proof.
  induction l as [|x l IH]; simpl; [constructor|].
  by apply insert_row_Sorted.
Qed.

Lemma reviews_step_fmap monthly base base' :
  reviews_step monthly base = Some base' →
  ∃ ν, base' = (λ b, set_Resenas_nuevas b (ν b)) <$> base.
Proof.
  unfold reviews_step. destruct monthly as [[|x0 sheet]|].
  - intros [= <-]. exists m_Resenas_nuevas.
    rewrite <-(list_fmap_id base) at 1. apply list_fmap_ext.
    by intros i [] _.
  - case_bool_decide; [|done]. intros [= <-]. by eexists.
  - intros [= <-]. exists m_Resenas_nuevas.
    rewrite <-(list_fmap_id base) at 1. apply list_fmap_ext.
    by intros i [] _.
Qed.

(** Arithmetic on NaN gives NaN. *)
Lemma sub_nan_r x : F64.sub x F64.nan = F64.nan.
Proof. by destruct x as [[]|[]| |[] ? ?]. Qed.

Lemma add_nan_l x : F64.add F64.nan x = F64.nan.
Proof. by destruct x as [[]|[]| |[] ? ?]. Qed.

Lemma round2_nan : F64.round2 F64.nan = F64.nan.
Proof. by vm_compute. Qed.

(** *** The pipeline *)

Section Parsers.
Variable to_datetime_column : list fecha_cell → list (option date).

Local Abbreviation with_Mes := (Rollup.with_Mes to_datetime_column).
Local Abbreviation compute_monthly :=
  (Rollup.compute_monthly to_datetime_column).
Local Abbreviation completed := (Rollup.completed to_datetime_column).
Local Abbreviation month_events := (Rollup.month_events to_datetime_column).
Local Abbreviation month_stats := (Rollup.month_stats to_datetime_column).
Local Abbreviation unrounded := (Rollup.unrounded to_datetime_column).

Lemma with_Mes_nil : with_Mes [] = [].
Proof. unfold Rollup.with_Mes. by destruct (_ <$> _). Qed.

(** The closed form of [base] after the merge and the derived columns: one
    row per month, computed from that month's completed events. *)
Lemma base_closed_form dfs :
  derive (gasto_fijo_mensual dfs) <$>
    (if bool_decide
          (filter (λ e, is_efectuado e = true) (Event_Log dfs) = [])
     then (λ m, (m, base_stats)) <$> SPANISH_MONTHS
     else merge_agg
            (retro_pct <$>
               foldl (backfill_step (completed dfs) (costo_var_default dfs))
                     (groupby_agg (completed dfs)) SPANISH_MONTHS))
  = unrounded dfs <$> SPANISH_MONTHS.
Proof.
  set (ev := completed dfs). set (g := gasto_fijo_mensual dfs).
  case_bool_decide as Hev.
  - rewrite <-list_fmap_compose. apply list_fmap_ext. intros i m _. simpl.
    rewrite derive_base_stats. unfold Rollup.unrounded, Rollup.month_stats.
    rewrite bool_decide_eq_true_2; [done|].
    unfold Rollup.month_events, Rollup.completed. by rewrite Hev, with_Mes_nil.
  - set (keys := remove_dups (ev.*1)).
    assert (Hkeys : NoDup keys) by apply NoDup_remove_dups.
    set (T := λ k : option string,
           retro_pct
             (match k with
              | Some m =>
                  if decide (m ∈ SPANISH_MONTHS)
                  then (k, backfilled ev (costo_var_default dfs) m
                             (aggregate (group ev k)))
                  else (k, aggregate (group ev k))
              | None => (k, aggregate (group ev k))
              end)).
    assert (Hagg : retro_pct <$>
               foldl (backfill_step ev (costo_var_default dfs))
                     (groupby_agg ev) SPANISH_MONTHS = T <$> keys).
    { rewrite foldl_backfill_fmap.
      - unfold groupby_agg. fold keys. rewrite <-!list_fmap_compose.
        apply list_fmap_ext. intros i k _. unfold T. simpl.
        destruct k as [m|]; [|done]. by case_decide.
      - apply NoDup_SPANISH_MONTHS.
      - by rewrite fst_groupby_agg. }
    rewrite Hagg. unfold merge_agg.
    rewrite (bind_ext_in _
      (λ m, [(m, if decide (Some m ∈ keys) then (T (Some m)).2
                 else nan_stats)])).
    2:{ intros m _. rewrite filter_fmap_key; [|by intros [?|]; unfold T;
          simpl; try case_decide|done].
        by case_decide. }
    rewrite bind_singleton, <-list_fmap_compose.
    apply list_fmap_ext. intros i m Hi. simpl.
    apply list_elem_of_lookup_2 in Hi.
    unfold Rollup.unrounded, Rollup.month_stats. fold g. f_equal. f_equal.
    unfold keys. case_decide as Hk.
    + rewrite elem_of_remove_dups, elem_of_keys_group in Hk.
      rewrite bool_decide_eq_false_2 by done.
      unfold T. rewrite decide_True by done. reflexivity.
    + rewrite elem_of_remove_dups, elem_of_keys_group in Hk.
      rewrite bool_decide_eq_true_2; [done|].
      unfold Rollup.month_events. fold ev.
      by destruct (group ev (Some m)); [|exfalso; apply Hk].
Qed.

Lemma compute_monthly_unfold dfs :
  compute_monthly dfs
  = if negb (str_accessor_ok dfs) then None else
    base ← reviews_step (Monthly dfs)
             (funnel_step (Funnel dfs) (unrounded dfs <$> SPANISH_MONTHS));
    Some (sort_values_Mes (round_row <$> base)).
Proof.
  pose proof (base_closed_form dfs) as H.
  unfold Rollup.completed, costo_var_default, gasto_fijo_mensual in H.
  unfold Rollup.compute_monthly. cbv zeta. by rewrite H.
Qed.

(** Every row of the summary is the rounded row of some month, with a
    booking ratio taken from the Funnel sheet and a review count. *)
Lemma compute_monthly_rows dfs rows r :
  compute_monthly dfs = Some rows → r ∈ rows →
  ∃ m x v, m ∈ SPANISH_MONTHS ∧
    r = round_row
          (set_Resenas_nuevas (set_Reservas_Meta (unrounded dfs m) x) v) ∧
    match Funnel dfs with
    | Some ((_ :: _) as tmp) =>
        (∃ f, f ∈ tmp ∧ f_Mes f = Some m
              ∧ x = booking_ratio (unrounded dfs m) (f_Reservas f))
        ∨ ((∀ f, f ∈ tmp → f_Mes f ≠ Some m)
           ∧ x = booking_ratio (unrounded dfs m) F64.nan)
    | _ => x = F64.zero
    end.
Proof.
  rewrite compute_monthly_unfold. intros Hrows Hr.
  destruct (negb _); [done|].
  destruct (reviews_step _ _) as [base'|] eqn:Hrev; [|done].
  injection Hrows as <-. rewrite sort_values_Mes_perm in Hr.
  apply list_elem_of_fmap in Hr as (r2 & -> & Hr2).
  destruct (elem_of_reviews_step _ _ _ _ Hrev Hr2) as (r1 & v & Hr1 & ->).
  destruct (elem_of_funnel_step _ _ _ Hr1) as (b & x & Hb & -> & Hx).
  apply list_elem_of_fmap in Hb as (m & -> & Hm).
  exists m, x, v. split_and!; [done..|]. exact Hx.
Qed.

(** *** The month totals, read off the event log *)

Lemma unrounded_Mes dfs m : m_Mes (unrounded dfs m) = m.
Proof. done. Qed.

Lemma unrounded_Eventos dfs m :
  m_Eventos (unrounded dfs m)
  = count_notna (ev_Precio <$> month_events dfs m).
Proof.
  unfold Rollup.unrounded, Rollup.month_stats, derive.
  case_bool_decide as Hg; [by rewrite Hg|done].
Qed.

Lemma unrounded_Ingresos dfs m :
  m_Ingresos (unrounded dfs m)
  = F64.fillna0 (group_sum (ev_Precio <$> month_events dfs m)).
Proof.
  unfold Rollup.unrounded, Rollup.month_stats, derive.
  case_bool_decide as Hg; [by rewrite Hg|done].
Qed.

Lemma unrounded_Margen_Pizza dfs m :
  m_Margen_Pizza (unrounded dfs m)
  = F64.fillna0 (group_sum (ev_Margen_Pizza <$> month_events dfs m)).
Proof.
  unfold Rollup.unrounded, Rollup.month_stats, derive.
  case_bool_decide as Hg; [by rewrite Hg|done].
Qed.

Lemma miss_month_events dfs m :
  miss (completed dfs) m
  = F64.of_nat
      (length (filter (λ e, F64.isna (ev_Costo_variable e) = true)
                      (month_events dfs m))).
Proof. done. Qed.

Lemma unrounded_Costo_variable dfs m :
  m_Costo_variable (unrounded dfs m)
  = F64.fillna0
      (F64.add
         (F64.or_zero (group_sum (ev_Costo_variable <$> month_events dfs m)))
         (F64.mul
            (F64.of_nat
               (length (filter (λ e, F64.isna (ev_Costo_variable e) = true)
                               (month_events dfs m))))
            (costo_var_default dfs))).
Proof.
  unfold Rollup.unrounded, Rollup.month_stats, derive.
  case_bool_decide as Hg; [|done].
  rewrite Hg. cbn [fmap list_fmap filter list_filter length].
  by rewrite empty_total.
Qed.

Lemma unrounded_Gastos_fijos dfs m :
  m_Gastos_fijos (unrounded dfs m)
  = if (APPLY_FIXED_FROM_MONTH <=? month_to_num m)%Z
    then gasto_fijo_mensual dfs else F64.zero.
Proof. done. Qed.

Lemma unrounded_Utilidad_neta dfs m :
  m_Utilidad_neta (unrounded dfs m)
  = F64.add (F64.sub (F64.sub (m_Ingresos (unrounded dfs m))
                              (m_Costo_variable (unrounded dfs m)))
                     (m_Gastos_fijos (unrounded dfs m)))
            (m_Margen_Pizza (unrounded dfs m)).
Proof. done. Qed.

(** *** The claims on the rollup *)

(** C1 (amended). In every row of the summary the net profit is the
    month's revenue minus variable cost minus fixed cost plus pizza margin
    (the margin is added back), computed in float64, in that order, on the
    totals before rounding, and then rounded to two decimals, as each of
    the four columns is on its own.  Before rounding, the revenue and the
    pizza margin are the sums of the prices and of the margins of the
    month's completed events, the variable cost is the backfilled total,
    and the fixed cost is the configured amount from October on. *)
Theorem net_profit_rounded (dfs : Dfs) (rows : list monthly_row)
    (r : monthly_row) :
  compute_monthly dfs = Some rows → r ∈ rows →
  let u := unrounded dfs (m_Mes r) in
  let g := month_events dfs (m_Mes r) in
  m_Ingresos u = F64.fillna0 (group_sum (ev_Precio <$> g)) ∧
  m_Margen_Pizza u = F64.fillna0 (group_sum (ev_Margen_Pizza <$> g)) ∧
  m_Costo_variable u
    = F64.fillna0
        (F64.add
           (F64.or_zero (group_sum (ev_Costo_variable <$> g)))
           (F64.mul
              (F64.of_nat
                 (length (filter (λ e, F64.isna (ev_Costo_variable e) = true)
                                 g)))
              (costo_var_default dfs))) ∧
  m_Gastos_fijos u
    = (if (APPLY_FIXED_FROM_MONTH <=? month_to_num (m_Mes r))%Z
       then gasto_fijo_mensual dfs else F64.zero) ∧
  m_Ingresos r = F64.round2 (m_Ingresos u) ∧
  m_Costo_variable r = F64.round2 (m_Costo_variable u) ∧
  m_Gastos_fijos r = F64.round2 (m_Gastos_fijos u) ∧
  m_Margen_Pizza r = F64.round2 (m_Margen_Pizza u) ∧
  m_Utilidad_neta r
    = F64.round2
        (F64.add (F64.sub (F64.sub (m_Ingresos u) (m_Costo_variable u))
                          (m_Gastos_fijos u))
                 (m_Margen_Pizza u)).
Proof.
  intros Hrows Hr.
  destruct (compute_monthly_rows _ _ _ Hrows Hr) as (m & x & v & Hm & -> & _).
  cbn [round_row set_Resenas_nuevas set_Reservas_Meta m_Mes m_Ingresos
       m_Costo_variable m_Gastos_fijos m_Margen_Pizza m_Utilidad_neta].
  rewrite unrounded_Mes. cbv zeta.
  split_and!; try reflexivity.
  - apply unrounded_Ingresos.
  - apply unrounded_Margen_Pizza.
  - apply unrounded_Costo_variable.
Qed.

(** C3 (amended). The fixed-cost column is the configured monthly amount,
    rounded to two decimals, in every month whose number is at least
    [APPLY_FIXED_FROM_MONTH] (October, 10), and zero in every earlier
    month. *)
Theorem fixed_cost_from_october (dfs : Dfs) (rows : list monthly_row)
    (r : monthly_row) :
  compute_monthly dfs = Some rows → r ∈ rows →
  (∃ i, SPANISH_MONTHS !! i = Some (m_Mes r) ∧
        month_to_num (m_Mes r) = (Z.of_nat i + 1)%Z) ∧
  m_Gastos_fijos r
    = (if (10 <=? month_to_num (m_Mes r))%Z
       then F64.round2 (gasto_fijo_mensual dfs) else F64.zero).
Proof.
  intros Hrows Hr.
  destruct (compute_monthly_rows _ _ _ Hrows Hr) as (m & x & v & Hm & -> & _).
  cbn [round_row set_Resenas_nuevas set_Reservas_Meta m_Mes m_Gastos_fijos].
  rewrite unrounded_Mes, unrounded_Gastos_fijos. split.
  - apply list_elem_of_lookup_1 in Hm as [i Hi]. exists i.
    split; [done|]. by apply month_to_num_lookup.
  - change APPLY_FIXED_FROM_MONTH with 10%Z.
    destruct (10 <=? month_to_num m)%Z; [done|]. apply round2_zero.
Qed.

(** The variable cost of every row, whatever the total: a total that is
    not a number shows as zero. *)
Lemma variable_cost_total dfs rows r :
  compute_monthly dfs = Some rows → r ∈ rows →
  m_Costo_variable r
  = F64.round2
      (F64.fillna0
         (F64.add
            (F64.or_zero
               (group_sum (ev_Costo_variable <$> month_events dfs (m_Mes r))))
            (F64.mul
               (F64.of_nat
                  (length
                     (filter (λ e, F64.isna (ev_Costo_variable e) = true)
                             (month_events dfs (m_Mes r)))))
               (costo_var_default dfs)))).
Proof.
  intros Hrows Hr.
  destruct (compute_monthly_rows _ _ _ Hrows Hr) as (m & x & v & Hm & -> & _).
  cbn [round_row set_Resenas_nuevas set_Reservas_Meta m_Mes m_Costo_variable].
  by rewrite unrounded_Mes, unrounded_Costo_variable.
Qed.

(** C4 (amended). The variable cost of a month in the summary is the sum
    of the explicit variable costs of the month's completed events plus
    the default variable cost times the number of those events that have
    none, rounded to two decimals, when that total is a number.  The
    events count is the number of those events that have a price, and the
    revenue is the rounded sum of their prices. *)
Theorem variable_cost_backfill (dfs : Dfs) (rows : list monthly_row)
    (r : monthly_row) :
  let g := month_events dfs (m_Mes r) in
  let total :=
    F64.add
      (F64.or_zero (group_sum (ev_Costo_variable <$> g)))
      (F64.mul
         (F64.of_nat
            (length (filter (λ e, F64.isna (ev_Costo_variable e) = true) g)))
         (costo_var_default dfs)) in
  compute_monthly dfs = Some rows → r ∈ rows →
  F64.isna total = false →
  m_Costo_variable r = F64.round2 total ∧
  m_Eventos r = count_notna (ev_Precio <$> g) ∧
  m_Ingresos r = F64.round2 (F64.fillna0 (group_sum (ev_Precio <$> g))).
Proof.
  intros g total Hrows Hr Hnum. split_and!.
  - rewrite (variable_cost_total _ _ _ Hrows Hr). fold g. fold total.
    by rewrite fillna0_notna.
  - destruct (compute_monthly_rows _ _ _ Hrows Hr)
      as (m & x & v & Hm & -> & _).
    apply unrounded_Eventos.
  - destruct (compute_monthly_rows _ _ _ Hrows Hr)
      as (m & x & v & Hm & -> & _).
    cbn [round_row set_Resenas_nuevas set_Reservas_Meta m_Ingresos].
    by rewrite unrounded_Ingresos.
Qed.


(** *** The empty event log *)





(** *** More on the summary *)


(** With at most one Funnel row per month, the summary is one row per
    month, in order. *)
Lemma rollup_unique_rows dfs rows :
  compute_monthly dfs = Some rows → funnel_keys_unique dfs →
  ∃ ρ ν, rows
         = (λ m, round_row
                   (set_Resenas_nuevas
                      (set_Reservas_Meta (unrounded dfs m) (ρ m)) (ν m)))
           <$> SPANISH_MONTHS.
Proof.
  intros Hrows Hf. rewrite compute_monthly_unfold in Hrows.
  destruct (negb _); [done|].
  destruct (reviews_step _ _) as [base'|] eqn:Hrev; [|done].
  injection Hrows as <-.
  destruct (funnel_step_unique (Funnel dfs)
              (unrounded dfs <$> SPANISH_MONTHS) Hf) as [ρ Hρ].
  rewrite Hρ in Hrev. apply reviews_step_fmap in Hrev as [ν ->].
  exists (λ m, ρ (unrounded dfs m)),
         (λ m, ν (set_Reservas_Meta (unrounded dfs m) (ρ (unrounded dfs m)))).
  rewrite <-!list_fmap_compose.
  rewrite sort_values_Mes_sorted; [done|].
  apply (Sorted_months (λ m, round_row
           (set_Resenas_nuevas
              (set_Reservas_Meta (unrounded dfs m) (ρ (unrounded dfs m)))
              (ν (set_Reservas_Meta (unrounded dfs m)
                                    (ρ (unrounded dfs m))))))).
  by intros m.
Qed.

(** X14. The summary lists the months of the year and nothing else, in calendar
    order: every month has at least one row, every row is of a month, and the
    rows come sorted by month, so there are at least twelve. When the Funnel
    sheet has at most one row per month the summary has exactly twelve rows,
    one per month, whatever the event log holds. *)
Theorem rollup_months (dfs : Dfs) (rows : list monthly_row) :
  compute_monthly dfs = Some rows →
  (∀ m, m ∈ SPANISH_MONTHS ↔ ∃ r, r ∈ rows ∧ m_Mes r = m) ∧
  Sorted (λ a b, cat_code (m_Mes a) ≤ cat_code (m_Mes b)) rows ∧
  12 ≤ length rows ∧
  (funnel_keys_unique dfs → m_Mes <$> rows = SPANISH_MONTHS).
Proof.
  intros Hrows.
  assert (Hmem : ∀ m, m ∈ SPANISH_MONTHS ↔ ∃ r, r ∈ rows ∧ m_Mes r = m).
  { intros m. split.
    - intros Hm. pose proof Hrows as Hrows'.
      rewrite compute_monthly_unfold in Hrows'.
      destruct (negb _); [done|].
      destruct (reviews_step _ _) as [base'|] eqn:Hrev; [|done].
      injection Hrows' as <-.
      destruct (funnel_step_covers (Funnel dfs)
                  (unrounded dfs <$> SPANISH_MONTHS) (unrounded dfs m))
        as (r1 & Hr1 & Hm1).
      { apply list_elem_of_fmap. eauto. }
      assert (m ∈ m_Mes <$> base') as Hin.
      { rewrite (reviews_step_Mes _ _ _ Hrev). apply list_elem_of_fmap.
        exists r1. by rewrite Hm1. }
      apply list_elem_of_fmap in Hin as (r2 & -> & Hr2).
      exists (round_row r2). split; [|done].
      rewrite sort_values_Mes_perm. apply list_elem_of_fmap. eauto.
    - intros (r & Hr & <-).
      destruct (compute_monthly_rows _ _ _ Hrows Hr)
        as (m & x & v & Hm & -> & _).
      done. }
  split_and!; [done| | |].
  - rewrite compute_monthly_unfold in Hrows.
    destruct (negb _); [done|].
    destruct (reviews_step _ _) as [base'|]; [|done].
    injection Hrows as <-. apply sort_values_Mes_Sorted.
  - assert (SPANISH_MONTHS ⊆+ m_Mes <$> rows) as Hsub.
    { apply NoDup_submseteq; [apply NoDup_SPANISH_MONTHS|].
      intros m Hm. apply Hmem in Hm as (r & Hr & <-).
      apply list_elem_of_fmap. eauto. }
    apply submseteq_length in Hsub. by rewrite length_fmap in Hsub.
  - intros Hf. destruct (rollup_unique_rows _ _ Hrows Hf) as (ρ & ν & ->).
    rewrite <-list_fmap_compose.
    rewrite <-(list_fmap_id SPANISH_MONTHS) at 2.
    by apply list_fmap_ext.
Qed.

(** X15. A fixed cost that is configured with a blank value is not replaced by
    the default: it is read as NaN, and from October on the fixed cost and the
    net profit of the summary are NaN, while the months before October carry a
    fixed cost of 0. *)
Theorem blank_fixed_cost_is_nan (dfs : Dfs) (rows : list monthly_row)
    (r : monthly_row) (df : list assumption) (a : assumption)
    (l : list assumption) :
  compute_monthly dfs = Some rows → r ∈ rows →
  Assumptions dfs = Some df →
  filter (λ a, a_Variable a = Some "Gastos fijos mensuales (MXN)") df = a :: l →
  a_Valor a = Missing →
  if (10 <=? month_to_num (m_Mes r))%Z
  then m_Gastos_fijos r = F64.nan ∧ m_Utilidad_neta r = F64.nan
  else m_Gastos_fijos r = F64.zero.
Proof.
  intros Hrows Hr HA Hf Ha.
  assert (Hg : gasto_fijo_mensual dfs = F64.nan).
  { unfold gasto_fijo_mensual, get_assumption. by rewrite HA, Hf, Ha. }
  destruct (compute_monthly_rows _ _ _ Hrows Hr) as (m & x & v & Hm & -> & _).
  cbn [round_row set_Resenas_nuevas set_Reservas_Meta m_Mes m_Gastos_fijos
       m_Utilidad_neta].
  rewrite unrounded_Mes, unrounded_Utilidad_neta, unrounded_Gastos_fijos, Hg.
  change APPLY_FIXED_FROM_MONTH with 10%Z.
  destruct (10 <=? month_to_num m)%Z.
  - split; [apply round2_nan|].
    by rewrite sub_nan_r, add_nan_l, round2_nan.
  - apply round2_zero.
Qed.

End Parsers.

(** *** Examples *)

(** The float64 cells of the examples, as decimals. *)
Lemma sample_cells :
  F64.of_Z 5000 = decimal 5000 0 ∧ F64.of_Z 1 = decimal 1 0 ∧
  subcent = decimal 390625 8.
Proof. by vm_compute. Qed.

(** Rounding to two decimals is that of numpy: 0.295 gives 0.3 (the
    product 29.5 rounds to the even 30), 8.345 gives 8.35 and 1100.005
    gives 1100.01. *)
Lemma round2_samples :
  F64.round2 (decimal 295 3) = decimal 3 1 ∧
  F64.round2 (decimal 8345 3) = decimal 835 2 ∧
  F64.round2 (decimal 1100005 3) = decimal 110001 2 ∧
  F64.round2 subcent = F64.zero ∧
  F64.round2 (F64.of_Z 5000) = F64.of_Z 5000 ∧
  F64.round2 F64.nan = F64.nan.
Proof. by vm_compute. Qed.

Lemma net_profit_rounded_witness :
  ∃ r, compute_monthly to_datetime_column dfs_march
       = Some (rows_of dfs_march) ∧
       r ∈ rows_of dfs_march ∧
       m_Mes r = "Mar" ∧
       (m_Ingresos r, m_Costo_variable r, m_Gastos_fijos r,
        m_Margen_Pizza r)
       = (F64.of_Z 1000, F64.of_Z 200, F64.zero, F64.zero) ∧
       m_Utilidad_neta r
       = F64.round2
           (F64.add
              (F64.sub
                 (F64.sub
                    (m_Ingresos (unrounded to_datetime_column dfs_march "Mar"))
                    (m_Costo_variable
                       (unrounded to_datetime_column dfs_march "Mar")))
                 (m_Gastos_fijos
                    (unrounded to_datetime_column dfs_march "Mar")))
              (m_Margen_Pizza
                 (unrounded to_datetime_column dfs_march "Mar"))) ∧
       m_Utilidad_neta r = F64.of_Z 800.
Proof.
  assert (E : compute_monthly to_datetime_column dfs_march
              = Some (rows_of dfs_march))
    by (vm_compute; reflexivity).
  destruct (rows_of dfs_march !! 2) as [r|] eqn:Er; [|by vm_compute in Er].
  assert (Hin : r ∈ rows_of dfs_march) by by eapply list_elem_of_lookup_2.
  assert (Hm : m_Mes r = "Mar").
  { vm_compute in Er. by injection Er as <-. }
  exists r. split_and!; [exact E|exact Hin|exact Hm| | |].
  - vm_compute in Er. by injection Er as <-.
  - pose proof (net_profit_rounded to_datetime_column dfs_march _ r E Hin)
      as H.
    cbv zeta in H. rewrite Hm in H. exact (proj2 (proj2 (proj2 (proj2 (proj2
      (proj2 (proj2 (proj2 H)))))))).
  - vm_compute in Er. by injection Er as <-.
Defined.

(** C1, as stated, fails: with a price and a pizza margin of 1/256 each,
    March shows revenue 0.00, costs 0.00, margin 0.00 and a net profit of
    0.01. *)
Lemma net_profit_off_by_a_cent :
  ∃ r, compute_monthly to_datetime_column dfs_subcent
       = Some (rows_of dfs_subcent) ∧
       rows_of dfs_subcent !! 2 = Some r ∧
       m_Mes r = "Mar" ∧
       m_Ingresos r = F64.zero ∧ m_Costo_variable r = F64.zero ∧
       m_Gastos_fijos r = F64.zero ∧ m_Margen_Pizza r = F64.zero ∧
       m_Utilidad_neta r = decimal 1 2 ∧
       F64.add (F64.sub (F64.sub (m_Ingresos r) (m_Costo_variable r))
                        (m_Gastos_fijos r))
               (m_Margen_Pizza r) = F64.zero ∧
       m_Utilidad_neta r
       ≠ F64.add (F64.sub (F64.sub (m_Ingresos r) (m_Costo_variable r))
                          (m_Gastos_fijos r))
                 (m_Margen_Pizza r).
Proof.
  destruct (rows_of dfs_subcent !! 2) as [r|] eqn:Er; [|by vm_compute in Er].
  exists r. vm_compute in Er. injection Er as <-.
  split_and!; try (vm_compute; reflexivity).
  intros H. vm_compute in H. discriminate.
Qed.

Lemma fixed_cost_from_october_witness :
  ∃ sep oct,
    compute_monthly to_datetime_column dfs_march
    = Some (rows_of dfs_march) ∧
    sep ∈ rows_of dfs_march ∧ oct ∈ rows_of dfs_march ∧
    m_Mes sep = "Sep" ∧ m_Mes oct = "Oct" ∧
    gasto_fijo_mensual dfs_march = F64.of_Z 5000 ∧
    m_Gastos_fijos sep = F64.zero ∧
    m_Gastos_fijos oct = F64.round2 (F64.of_Z 5000) ∧
    m_Gastos_fijos oct = F64.of_Z 5000.
Proof.
  assert (E : compute_monthly to_datetime_column dfs_march
              = Some (rows_of dfs_march))
    by (vm_compute; reflexivity).
  destruct (rows_of dfs_march !! 8) as [sep|] eqn:Es; [|by vm_compute in Es].
  destruct (rows_of dfs_march !! 9) as [oct|] eqn:Eo; [|by vm_compute in Eo].
  assert (Hs : sep ∈ rows_of dfs_march) by by eapply list_elem_of_lookup_2.
  assert (Ho : oct ∈ rows_of dfs_march) by by eapply list_elem_of_lookup_2.
  assert (Hms : m_Mes sep = "Sep").
  { vm_compute in Es. by injection Es as <-. }
  assert (Hmo : m_Mes oct = "Oct").
  { vm_compute in Eo. by injection Eo as <-. }
  assert (Hsep : m_Gastos_fijos sep = F64.zero).
  { pose proof (proj2 (fixed_cost_from_october to_datetime_column dfs_march
                         _ sep E Hs)) as H.
    by rewrite Hms in H. }
  assert (Hoct : m_Gastos_fijos oct = F64.round2 (F64.of_Z 5000)).
  { pose proof (proj2 (fixed_cost_from_october to_datetime_column dfs_march
                         _ oct E Ho)) as H.
    by rewrite Hmo in H. }
  exists sep, oct. split_and!; [done..|].
  rewrite Hoct. by vm_compute.
Defined.

(** The example of the specification: fixed cost 5000 gives 0 in September
    and 5000 in October. *)
Example fixed_cost_5000 :
  m_Gastos_fijos <$> rows_of dfs_march
  = [ F64.zero; F64.zero; F64.zero; F64.zero; F64.zero; F64.zero;
      F64.zero; F64.zero; F64.zero;
      F64.of_Z 5000; F64.of_Z 5000; F64.of_Z 5000 ].
Proof. vm_compute. reflexivity. Qed.

(** C3, as stated, fails: a configured amount of 1/256 shows as 0.00 in
    October. *)
Lemma fixed_cost_is_rounded :
  ∃ r, compute_monthly to_datetime_column dfs_subcent_fixed
       = Some (rows_of dfs_subcent_fixed) ∧
       rows_of dfs_subcent_fixed !! 9 = Some r ∧
       m_Mes r = "Oct" ∧ month_to_num (m_Mes r) = 10%Z ∧
       gasto_fijo_mensual dfs_subcent_fixed = subcent ∧
       m_Gastos_fijos r = F64.zero ∧
       m_Gastos_fijos r ≠ gasto_fijo_mensual dfs_subcent_fixed.
Proof.
  destruct (rows_of dfs_subcent_fixed !! 9) as [r|] eqn:Er;
    [|by vm_compute in Er].
  exists r. vm_compute in Er. injection Er as <-.
  split_and!; try (vm_compute; reflexivity).
  intros H. vm_compute in H. discriminate.
Qed.

Lemma variable_cost_backfill_witness :
  ∃ r, compute_monthly to_datetime_column dfs_march
       = Some (rows_of dfs_march) ∧
       r ∈ rows_of dfs_march ∧
       costo_var_default dfs_march = F64.of_Z 200 ∧
       m_Mes r = "Mar" ∧
       m_Costo_variable r
       = F64.round2
           (F64.add
              (F64.or_zero
                 (group_sum (ev_Costo_variable <$>
                               month_events to_datetime_column dfs_march
                                            "Mar")))
              (F64.mul
                 (F64.of_nat
                    (length
                       (filter (λ e, F64.isna (ev_Costo_variable e) = true)
                               (month_events to_datetime_column dfs_march
                                             "Mar"))))
                 (F64.of_Z 200))) ∧
       (m_Ingresos r, m_Costo_variable r, m_Eventos r)
       = (F64.of_Z 1000, F64.of_Z 200, 1).
Proof.
  assert (E : compute_monthly to_datetime_column dfs_march
              = Some (rows_of dfs_march))
    by (vm_compute; reflexivity).
  destruct (rows_of dfs_march !! 2) as [r|] eqn:Er; [|by vm_compute in Er].
  assert (Hin : r ∈ rows_of dfs_march) by by eapply list_elem_of_lookup_2.
  assert (Hm : m_Mes r = "Mar").
  { vm_compute in Er. by injection Er as <-. }
  exists r. split_and!; [exact E|exact Hin|reflexivity|exact Hm| |].
  - pose proof (variable_cost_backfill to_datetime_column dfs_march _ r
                  E Hin) as H.
    rewrite Hm in H. exact (proj1 (H eq_refl)).
  - vm_compute in Er. by injection Er as <-.
Defined.

(** The example of the specification: one completed March event of 1000
    without a variable cost, default 200. *)
Example march_backfill :
  (λ r, (m_Mes r, m_Ingresos r, m_Costo_variable r, m_Eventos r))
    <$> rows_of dfs_march !! 2
  = Some ("Mar", F64.of_Z 1000, F64.of_Z 200, 1).
Proof. vm_compute. reflexivity. Qed.

(** C4, as stated, fails: an explicit variable cost of 1/256 shows as a
    month total of 0.00. *)
Lemma variable_cost_is_rounded :
  ∃ r, compute_monthly to_datetime_column dfs_subcent_cost
       = Some (rows_of dfs_subcent_cost) ∧
       rows_of dfs_subcent_cost !! 2 = Some r ∧
       m_Mes r = "Mar" ∧
       group_sum (ev_Costo_variable <$>
                    month_events to_datetime_column dfs_subcent_cost "Mar")
       = subcent ∧
       filter (λ e, F64.isna (ev_Costo_variable e) = true)
              (month_events to_datetime_column dfs_subcent_cost "Mar") = [] ∧
       m_Costo_variable r = F64.zero ∧
       m_Costo_variable r ≠ subcent.
Proof.
  destruct (rows_of dfs_subcent_cost !! 2) as [r|] eqn:Er;
    [|by vm_compute in Er].
  exists r. vm_compute in Er. injection Er as <-.
  split_and!; try (vm_compute; reflexivity).
  intros H. vm_compute in H. discriminate.
Qed.



(** A month with completed events that the Funnel sheet does not list,
    while it lists another month: the ratio is NaN, where the branch
    without a Funnel sheet gives 0. *)
Example booking_ratio_nan :
  (λ r, (m_Mes r, m_Eventos r, m_Reservas_Meta r))
    <$> rows_of dfs_funnel_april !! 2
  = Some ("Mar", 3, F64.nan).
Proof. vm_compute. reflexivity. Qed.



(** On the log the normaliser builds when the workbook has no sheet of
    events, the "Estatus" column is of dtype float64 and the rollup raises
    ([AttributeError] at [.str]). *)
Example empty_log_without_sheet :
  Event_Log dfs_no_sheet = [] ∧
  compute_monthly to_datetime_column dfs_no_sheet = None.
Proof. by vm_compute. Qed.

Lemma get_assumption_first_match_witness :
  get_assumption dfs_march "Costo variable por evento (MXN)" F64.zero
  = F64.of_Z 200.
Proof.
  apply (get_assumption_first_match dfs_march _ _
           [setting "Gastos fijos mensuales (MXN)" (F64.of_Z 5000)] []
           (setting "Costo variable por evento (MXN)" (F64.of_Z 200)));
    [reflexivity| |reflexivity].
  intros x Hx. apply list_elem_of_singleton in Hx as ->. discriminate.
Defined.

Lemma get_assumption_default_witness :
  get_assumption dfs_subcent "Gastos fijos mensuales (MXN)" F64.zero
  = F64.zero.
Proof.
  apply (get_assumption_default dfs_subcent). intros df Hdf. discriminate Hdf.
Defined.

Lemma rollup_months_witness :
  compute_monthly to_datetime_column dfs_funnel = Some (rows_of dfs_funnel) ∧
  m_Mes <$> rows_of dfs_funnel = SPANISH_MONTHS.
Proof.
  assert (H : compute_monthly to_datetime_column dfs_funnel
              = Some (rows_of dfs_funnel))
    by (vm_compute; reflexivity).
  split; [exact H|].
  destruct (rollup_months to_datetime_column dfs_funnel (rows_of dfs_funnel) H)
    as (_ & _ & _ & Hu).
  apply Hu. unfold funnel_keys_unique. simpl.
  apply NoDup_singleton.
Defined.

Lemma blank_fixed_cost_is_nan_witness :
  ∃ r, compute_monthly to_datetime_column dfs_blank_fixed
       = Some (rows_of dfs_blank_fixed) ∧
       rows_of dfs_blank_fixed !! 9 = Some r ∧ m_Mes r = "Oct" ∧
       m_Gastos_fijos r = F64.nan ∧ m_Utilidad_neta r = F64.nan.
Proof.
  assert (H : compute_monthly to_datetime_column dfs_blank_fixed
              = Some (rows_of dfs_blank_fixed))
    by (vm_compute; reflexivity).
  destruct (rows_of dfs_blank_fixed !! 9) as [r|] eqn:Er;
    [|by vm_compute in Er].
  assert (Hmes : m_Mes r = "Oct").
  { apply (f_equal (fmap m_Mes)) in Er. vm_compute in Er. by injection Er. }
  exists r. split_and!; [exact H|reflexivity|exact Hmes|..];
    pose proof (blank_fixed_cost_is_nan to_datetime_column dfs_blank_fixed
                  (rows_of dfs_blank_fixed) r _ _ _ H
                  (list_elem_of_lookup_2 _ _ _ Er) eq_refl eq_refl eq_refl)
      as Hb;
    rewrite Hmes in Hb; apply Hb.
Defined.

End RollupFacts.
